(** * I-Am-Not-a-Beast-of-Burden: the content catalog and the progression engine

    The first half of this file embeds [constants.ts] (the content catalog:
    origins, skills, random events, NPC roster, actions, jobs and
    [GET_SCENE_ACTIONS]).  Every entry is kept, in the source's order, with
    the fields that carry rules (ids, categories, costs, levels,
    prerequisites, probabilities, outcomes, values, cooldowns, scenes,
    favor ceilings); display-only fields (names, descriptions, icons,
    colours, flavour texts) are left out.  JavaScript numbers that the
    source only ever writes as integers are [Z]; the trigger probabilities
    are IEEE-754 binary64 values, as in the source; arrays are lists and
    [Record<string, _>] tables are [gmap]s.

    The second half models the progression and action-resolution engine
    that the specification describes.  Its TypeScript source is not part of
    the repository files at hand, so each of its definitions is marked as
    modelled from the specification.

    A third part embeds the logic of the presentation components that is
    independent of rendering: the action animation, the displayed emotion,
    dragging, the NPC click and the context menu of [OfficeScene.tsx], the
    outcome preview of [EventModal.tsx], and [SoundManager]. *)

From Stdlib Require Import ZArith Floats Sorted.
From stdpp Require Import base decidable option list gmap strings pretty.

Set Warnings "-inexact-float".
Local Open Scope string_scope.
Local Open Scope Z_scope.

(* ===================================================================== *)
(** ** Types of [types.ts] *)
(* ===================================================================== *)

(** The declarations of [types.ts] are not among the available files; the
    enumerations below list the literals that [constants.ts] and the
    components use for each of them. *)

Inductive OriginType := GRINDER | HEIR | SOCIALITE.

Inductive SkillCategory := EFFICIENCY | POLITICS | SURVIVAL.

Inductive Profession := INTERN | JUNIOR | SENIOR | MANAGER | DIRECTOR.

Inductive SceneType := BOSS_OFFICE | HR | WORKSTATION.

Inductive ActionType := WORK | PLEASE | REBEL | TALK | VIOLENCE.

#[global] Instance OriginType_eq_dec : EqDecision OriginType.
Proof. solve_decision. Defined.
#[global] Instance SkillCategory_eq_dec : EqDecision SkillCategory.
Proof. solve_decision. Defined.
#[global] Instance Profession_eq_dec : EqDecision Profession.
Proof. solve_decision. Defined.
#[global] Instance SceneType_eq_dec : EqDecision SceneType.
Proof. solve_decision. Defined.
#[global] Instance ActionType_eq_dec : EqDecision ActionType.
Proof. solve_decision. Defined.

Record BaseStats := {
  bs_money : Z;
  bs_charm : Z;
  bs_intellect : Z
}.

Record OriginConfig := {
  origin_id : OriginType;
  origin_title : string;
  origin_passive : string;
  baseStats : BaseStats
}.

Record SkillConfig := {
  skill_id : string;
  skill_category : SkillCategory;
  skill_cost : Z;
  maxLevel : nat;
  reqId : option string
}.

(** An event outcome: every delta is optional in the source. *)
Record EventOutcome := {
  out_money : option Z;
  out_favor : option Z;
  out_rage : option Z;
  out_sp : option Z;
  feedbackText : string
}.

Record EventOption := {
  opt_label : string;
  outcome : EventOutcome
}.

Record RandomEvent := {
  event_id : string;
  npcRole : string;
  triggerChance : float;
  options : list EventOption
}.

Record NPCConfig := {
  npc_id : string;
  npc_name : string;
  npc_role : string;
  dialogues : list string
}.

Record GameAction := {
  action_id : string;
  action_type : ActionType;
  cost : option Z;
  value : Z;
  cooldown : Z;
  targetScene : option SceneType
}.

Record JobConfig := {
  job_id : Profession;
  bossName : string;
  maxFavor : Z;
  actions : list GameAction
}.

(* ===================================================================== *)
(** ** The catalog of [constants.ts] *)
(* ===================================================================== *)

(** [ORIGINS : Record<OriginType, OriginConfig>]: one entry per origin. *)
Definition ORIGINS (o : OriginType) : OriginConfig :=
  match o with
  | GRINDER =>
      {| origin_id := GRINDER; origin_title := "The Grinder";
         origin_passive := "【内卷之王】工作收益+20%，但更容易积攒怒气。";
         baseStats := {| bs_money := -50000; bs_charm := 10; bs_intellect := 90 |} |}
  | HEIR =>
      {| origin_id := HEIR; origin_title := "The Heir";
         origin_passive := "【钞能力】开局自带资金，可以使用金钱消除怒气。";
         baseStats := {| bs_money := 1000000; bs_charm := 50; bs_intellect := 40 |} |}
  | SOCIALITE =>
      {| origin_id := SOCIALITE; origin_title := "The Socialite";
         origin_passive := "【八面玲珑】NPC好感度获取速度翻倍。";
         baseStats := {| bs_money := 50000; bs_charm := 90; bs_intellect := 60 |} |}
  end.

Definition mkSkill (id : string) (c : SkillCategory) (k : Z) (m : nat)
    (r : option string) : SkillConfig :=
  {| skill_id := id; skill_category := c; skill_cost := k; maxLevel := m; reqId := r |}.

Definition SKILLS : list SkillConfig :=
  [ (* EFFICIENCY BRANCH *)
    mkSkill "eff_typing" EFFICIENCY 1 5 None;
    mkSkill "eff_coffee" EFFICIENCY 2 3 (Some "eff_typing");
    mkSkill "eff_auto" EFFICIENCY 5 1 (Some "eff_coffee");
    (* POLITICS BRANCH *)
    mkSkill "pol_smile" POLITICS 1 5 None;
    mkSkill "pol_gossip" POLITICS 2 3 (Some "pol_smile");
    mkSkill "pol_master" POLITICS 5 1 (Some "pol_gossip");
    (* SURVIVAL BRANCH *)
    mkSkill "sur_zen" SURVIVAL 1 5 None;
    mkSkill "sur_gym" SURVIVAL 2 3 (Some "sur_zen");
    mkSkill "sur_law" SURVIVAL 5 1 (Some "sur_gym") ].

Definition mkOutcome (m f r s : option Z) (t : string) : EventOutcome :=
  {| out_money := m; out_favor := f; out_rage := r; out_sp := s; feedbackText := t |}.

Definition mkOption (l : string) (o : EventOutcome) : EventOption :=
  {| opt_label := l; outcome := o |}.

Definition RANDOM_EVENTS : list RandomEvent :=
  [ {| event_id := "evt_boss_secret"; npcRole := "BOSS"; triggerChance := 0.15%float;
       options :=
         [ mkOption "拍照留存"
             (mkOutcome None (Some 10) (Some (-20)) (Some 2)
                "咔嚓。视频非常清晰。你掌握了老板的命门！(获得技能点)");
           mkOption "勒索加薪"
             (mkOutcome (Some 20000) (Some 50) (Some (-50)) None
                "老板脸色铁青地给你转了账，并承诺下月晋升你。");
           mkOption "咳嗽一声"
             (mkOutcome None (Some (-50)) (Some 20) None
                "老板吓了一跳，随后用要杀人的眼神瞪了你一眼。好感度大降！") ] |};
    {| event_id := "evt_betrayal"; npcRole := "COLLEAGUE"; triggerChance := 0.2%float;
       options :=
         [ mkOption "当众揭穿"
             (mkOutcome None (Some (-20)) (Some (-100)) None
                "你在会上大闹一场，虽然爽了，但大家觉得你情绪不稳定。");
           mkOption "私下谈判"
             (mkOutcome (Some 1000) None (Some 10) None
                "Gary心虚地分了你一半奖金作为封口费。");
           mkOption "隐忍不发"
             (mkOutcome None None (Some 50) (Some 1)
                "你默默记下了这笔账。心机+1，获得技能点。") ] |};
    {| event_id := "evt_offer"; npcRole := "HR"; triggerChance := 0.1%float;
       options :=
         [ mkOption "严词拒绝"
             (mkOutcome (Some 0) (Some 40) None None
                "老板无意中听到了你的拒绝，对你的忠诚度非常满意。");
           mkOption "有些心动"
             (mkOutcome None (Some (-10)) (Some 20) None
                "你犹豫的态度被HR看在眼里，她开始提防你了。");
           mkOption "双面间谍"
             (mkOutcome (Some 5000) (Some 20) None (Some 1)
                "你假装答应猎头套取了竞对情报，反手汇报给老板。赢麻了！") ] |};
    {| event_id := "evt_blame"; npcRole := "COLLEAGUE"; triggerChance := 0.15%float;
       options :=
         [ mkOption "甩锅给实习生"
             (mkOutcome None (Some 30) (Some (-20)) (Some 1)
                "实习生哭着背了锅，高层觉得你很有管理手腕。");
           mkOption "主动背锅"
             (mkOutcome None (Some (-30)) (Some 50) (Some 2)
                "虽然被骂了，但你在团队中威望提升了。");
           mkOption "通宵修复"
             (mkOutcome None (Some 50) (Some 100) None
                "问题解决了，但你的发际线后移了2厘米。") ] |};
    {| event_id := "evt_coffee"; npcRole := "HR"; triggerChance := 0.2%float;
       options :=
         [ mkOption "请全组喝"
             (mkOutcome (Some (-200)) (Some 25) (Some (-30)) None
                "大家都说你大气！好感度UP！");
           mkOption "只点自己的"
             (mkOutcome (Some (-20)) None (Some (-10)) None
                "奶茶真好喝。");
           mkOption "减肥，不喝"
             (mkOutcome None (Some (-5)) (Some 10) None
                "你显得有点不合群。") ] |} ].

(** [NPCS : Record<string, NPCConfig>]: a table keyed by role name. *)
Definition NPCS : gmap string NPCConfig :=
  list_to_map
    [ ("HR",
       {| npc_id := "hr_linda"; npc_name := "HR Linda"; npc_role := "HR";
          dialogues :=
            [ "亲爱的，这是你的入职合同，签了就是一家人。";
              "离职流程很复杂的，要走三十天流程哦。";
              "公司福利很好的，有免费的白开水。";
              "你的考勤有点问题..." ] |});
      ("COLLEAGUE",
       {| npc_id := "colleague_gary"; npc_name := "老油条 Gary"; npc_role := "COLLEAGUE";
          dialogues :=
            [ "听说隔壁部门又裁员了。";
              "帮我看个Bug，我这有点急事（溜）。";
              "老板今天心情不好，别去触霉头。";
              "奶茶拼单吗？" ] |}) ].

Definition mkAction (id : string) (t : ActionType) (c : option Z) (v cd : Z)
    (sc : option SceneType) : GameAction :=
  {| action_id := id; action_type := t; cost := c; value := v; cooldown := cd;
     targetScene := sc |}.

(* Actions available at different stages *)
Definition COMMON_VIOLENCE : list GameAction :=
  [ mkAction "punch" VIOLENCE (Some 100) 20 500 None;
    mkAction "kick" VIOLENCE (Some 100) 30 800 None;
    mkAction "scold" VIOLENCE (Some 100) 15 200 None;
    mkAction "combo" VIOLENCE (Some 300) 100 2000 None ].

Definition WORK_ACTIONS : list GameAction :=
  [ mkAction "work_hard" WORK None 10 1000 (Some WORKSTATION);
    mkAction "gossip" TALK None 15 2000 (Some WORKSTATION);
    mkAction "help" PLEASE None 20 3000 (Some WORKSTATION) ].

Definition HR_ACTIONS : list GameAction :=
  [ mkAction "onboard" PLEASE None 0 10000 (Some HR);
    mkAction "resign" REBEL None 0 5000 (Some HR);
    mkAction "argue_hr" VIOLENCE (Some 50) 50 2000 (Some HR) ].

(** [JOBS : Record<Profession, JobConfig>]: one entry per rank. *)
Definition JOBS (p : Profession) : JobConfig :=
  match p with
  | INTERN =>
      {| job_id := INTERN; bossName := "苛刻主管"; maxFavor := 100;
         actions :=
           [ mkAction "tea" PLEASE None 10 1500 (Some BOSS_OFFICE);
             mkAction "clean" PLEASE None 15 2000 (Some BOSS_OFFICE);
             mkAction "slack" REBEL None 10 1000 (Some BOSS_OFFICE) ] |}
  | JUNIOR =>
      {| job_id := JUNIOR; bossName := "画饼经理"; maxFavor := 250;
         actions :=
           [ mkAction "ot" PLEASE None 20 2500 (Some BOSS_OFFICE);
             mkAction "laugh" PLEASE None 15 1500 (Some BOSS_OFFICE);
             mkAction "refuse" REBEL None 20 2000 (Some BOSS_OFFICE) ] |}
  | SENIOR =>
      {| job_id := SENIOR; bossName := "更年期总监"; maxFavor := 500;
         actions :=
           [ mkAction "pot" PLEASE None 40 4000 (Some BOSS_OFFICE);
             mkAction "teach" REBEL None 35 3000 (Some BOSS_OFFICE) ] |}
  | MANAGER =>
      {| job_id := MANAGER; bossName := "空降高管"; maxFavor := 1000;
         actions :=
           [ mkAction "report" PLEASE None 80 4000 (Some BOSS_OFFICE);
             mkAction "spy" PLEASE None 100 6000 (Some BOSS_OFFICE);
             mkAction "deny" REBEL None 80 3000 (Some BOSS_OFFICE) ] |}
  | DIRECTOR =>
      {| job_id := DIRECTOR; bossName := "董事长"; maxFavor := 9999;
         actions :=
           [ mkAction "ipo" PLEASE None 500 10000 (Some BOSS_OFFICE);
             mkAction "coup" REBEL None 1000 10000 (Some BOSS_OFFICE) ] |}
  end.

Definition GET_SCENE_ACTIONS (job : Profession) (scene : SceneType) : list GameAction :=
  if decide (scene = HR) then HR_ACTIONS
  else if decide (scene = WORKSTATION) then WORK_ACTIONS
  else (* Boss Office *) actions (JOBS job) ++ COMMON_VIOLENCE.

(* ===================================================================== *)
(** ** Catalog lookups and well-formedness predicates *)
(* ===================================================================== *)

Definition skillById (id : string) : option SkillConfig :=
  find (λ k, bool_decide (skill_id k = id)) SKILLS.

(** A skill's prerequisite reference resolves when it names a catalog skill. *)
Definition reqIdResolves (k : SkillConfig) : Prop :=
  match reqId k with
  | None => True
  | Some r => is_Some (skillById r)
  end.

(** An event's role reference resolves when [NPCS] has an entry under it. *)
Definition npcRoleResolves (e : RandomEvent) : Prop :=
  is_Some (NPCS !! npcRole e).

(** The boss is the one role without an [NPCS] entry: the scene falls back
    to the role ['BOSS'] when it is given no NPC configuration, and the
    boss's name and colours come from the rank's [JOBS] entry. *)
Definition npcRoleKnown (e : RandomEvent) : Prop :=
  npcRole e = "BOSS" ∨ npcRoleResolves e.

(** A declared prerequisite names a catalog skill of the same category. *)
Definition prereqInCategory (k : SkillConfig) : Prop :=
  match reqId k with
  | None => True
  | Some r => ∃ t, skillById r = Some t ∧ skill_category t = skill_category k
  end.

Definition validChance (p : float) : bool :=
  (PrimFloat.leb 0%float p && PrimFloat.leb p 1%float)%bool.

Definition eventWellFormed (e : RandomEvent) : Prop :=
  validChance (triggerChance e) = true
  ∧ (2 ≤ length (options e) ≤ 4)%nat
  ∧ Forall (λ o, feedbackText (outcome o) ≠ "") (options e).

Definition skillsOf (c : SkillCategory) : list SkillConfig :=
  filter (λ k, skill_category k = c) SKILLS.

(** [isChainFrom prev l]: the first skill of [l] has prerequisite [prev] and
    every later one requires exactly its predecessor in [l]. *)
Fixpoint isChainFrom (prev : option string) (l : list SkillConfig) : Prop :=
  match l with
  | [] => True
  | k :: l' => reqId k = prev ∧ isChainFrom (Some (skill_id k)) l'
  end.

(** [requires k t]: catalog skill [k] names catalog skill [t] as prerequisite. *)
Definition requires (k t : SkillConfig) : Prop :=
  k ∈ SKILLS ∧ t ∈ SKILLS ∧ reqId k = Some (skill_id t).

(** Position of a skill id in [SKILLS] (the table's length when absent). *)
Definition skillRank (id : string) : nat :=
  default (length SKILLS)
    (fst <$> list_find (λ k, skill_id k = id) SKILLS).

(** Membership of an action in the action catalog of [constants.ts]. *)
Definition inCatalog (a : GameAction) : Prop :=
  a ∈ COMMON_VIOLENCE ∨ a ∈ WORK_ACTIONS ∨ a ∈ HR_ACTIONS
  ∨ ∃ p, a ∈ actions (JOBS p).

Definition costDiscipline (a : GameAction) : Prop :=
  (is_Some (cost a) ↔ action_type a = VIOLENCE)
  ∧ ∀ c, cost a = Some c → 0 < c.

(* ===================================================================== *)
(** ** The whole action catalog *)
(* ===================================================================== *)

(** The ranks in the order in which [JOBS] lists them. *)
Definition RANKS : list Profession := [INTERN; JUNIOR; SENIOR; MANAGER; DIRECTOR].

(** Every action object that [constants.ts] declares, shared lists first. *)
Definition ALL_ACTIONS : list GameAction :=
  COMMON_VIOLENCE ++ WORK_ACTIONS ++ HR_ACTIONS
  ++ concat (map (λ p, actions (JOBS p)) RANKS).

(* ===================================================================== *)
(** ** Game session state *)
(* ===================================================================== *)

(** Modelled from the spec: the Progression State Machine of section 4.5
    (its code is missing) has one state per rank plus the two terminal
    states; the rank is kept in [profession] and the run status here. *)
Inductive RunStatus := RUNNING | WON | FAILED.

#[global] Instance RunStatus_eq_dec : EqDecision RunStatus.
Proof. solve_decision. Defined.

Definition sceneCode (sc : SceneType) : nat :=
  match sc with BOSS_OFFICE => 0 | HR => 1 | WORKSTATION => 2 end.

Definition sceneOfCode (n : nat) : SceneType :=
  match n with O => BOSS_OFFICE | S O => HR | _ => WORKSTATION end.

#[global] Instance SceneType_countable : Countable SceneType.
Proof. by refine (inj_countable' sceneCode sceneOfCode _); intros []. Defined.

(** Modelled from the spec: the session aggregate of section 3 (the
    [GameState] declaration of [types.ts] and the code that mutates it are
    not available).  Field names follow the reads of [OfficeScene.tsx]
    where it has them ([profession], [origin], [currentScene], [favor],
    [rage], [bossHealth], [currentEvent], [lastActionId]).  [cooldowns]
    holds the last-used timestamp under the key (scene, action id). *)
Record GameState := {
  profession : Profession;
  status : RunStatus;
  origin : OriginType;
  currentScene : SceneType;
  money : Z;
  favor : Z;
  rage : Z;
  skillPoints : Z;
  bossHealth : Z;
  skillLevels : gmap string nat;
  cooldowns : gmap (SceneType * string) Z;
  currentEvent : option RandomEvent;
  lastActionId : option string
}.

Definition set_profession (x : Profession) (s : GameState) : GameState :=
  {| profession := x; status := status s; origin := origin s;
     currentScene := currentScene s; money := money s; favor := favor s;
     rage := rage s; skillPoints := skillPoints s; bossHealth := bossHealth s;
     skillLevels := skillLevels s; cooldowns := cooldowns s;
     currentEvent := currentEvent s; lastActionId := lastActionId s |}.

Definition set_status (x : RunStatus) (s : GameState) : GameState :=
  {| profession := profession s; status := x; origin := origin s;
     currentScene := currentScene s; money := money s; favor := favor s;
     rage := rage s; skillPoints := skillPoints s; bossHealth := bossHealth s;
     skillLevels := skillLevels s; cooldowns := cooldowns s;
     currentEvent := currentEvent s; lastActionId := lastActionId s |}.

Definition set_currentScene (x : SceneType) (s : GameState) : GameState :=
  {| profession := profession s; status := status s; origin := origin s;
     currentScene := x; money := money s; favor := favor s;
     rage := rage s; skillPoints := skillPoints s; bossHealth := bossHealth s;
     skillLevels := skillLevels s; cooldowns := cooldowns s;
     currentEvent := currentEvent s; lastActionId := lastActionId s |}.

Definition set_money (x : Z) (s : GameState) : GameState :=
  {| profession := profession s; status := status s; origin := origin s;
     currentScene := currentScene s; money := x; favor := favor s;
     rage := rage s; skillPoints := skillPoints s; bossHealth := bossHealth s;
     skillLevels := skillLevels s; cooldowns := cooldowns s;
     currentEvent := currentEvent s; lastActionId := lastActionId s |}.

Definition set_favor (x : Z) (s : GameState) : GameState :=
  {| profession := profession s; status := status s; origin := origin s;
     currentScene := currentScene s; money := money s; favor := x;
     rage := rage s; skillPoints := skillPoints s; bossHealth := bossHealth s;
     skillLevels := skillLevels s; cooldowns := cooldowns s;
     currentEvent := currentEvent s; lastActionId := lastActionId s |}.

Definition set_rage (x : Z) (s : GameState) : GameState :=
  {| profession := profession s; status := status s; origin := origin s;
     currentScene := currentScene s; money := money s; favor := favor s;
     rage := x; skillPoints := skillPoints s; bossHealth := bossHealth s;
     skillLevels := skillLevels s; cooldowns := cooldowns s;
     currentEvent := currentEvent s; lastActionId := lastActionId s |}.

Definition set_skillPoints (x : Z) (s : GameState) : GameState :=
  {| profession := profession s; status := status s; origin := origin s;
     currentScene := currentScene s; money := money s; favor := favor s;
     rage := rage s; skillPoints := x; bossHealth := bossHealth s;
     skillLevels := skillLevels s; cooldowns := cooldowns s;
     currentEvent := currentEvent s; lastActionId := lastActionId s |}.

Definition set_bossHealth (x : Z) (s : GameState) : GameState :=
  {| profession := profession s; status := status s; origin := origin s;
     currentScene := currentScene s; money := money s; favor := favor s;
     rage := rage s; skillPoints := skillPoints s; bossHealth := x;
     skillLevels := skillLevels s; cooldowns := cooldowns s;
     currentEvent := currentEvent s; lastActionId := lastActionId s |}.

Definition set_skillLevels (x : gmap string nat) (s : GameState) : GameState :=
  {| profession := profession s; status := status s; origin := origin s;
     currentScene := currentScene s; money := money s; favor := favor s;
     rage := rage s; skillPoints := skillPoints s; bossHealth := bossHealth s;
     skillLevels := x; cooldowns := cooldowns s;
     currentEvent := currentEvent s; lastActionId := lastActionId s |}.

Definition set_cooldowns (x : gmap (SceneType * string) Z) (s : GameState) : GameState :=
  {| profession := profession s; status := status s; origin := origin s;
     currentScene := currentScene s; money := money s; favor := favor s;
     rage := rage s; skillPoints := skillPoints s; bossHealth := bossHealth s;
     skillLevels := skillLevels s; cooldowns := x;
     currentEvent := currentEvent s; lastActionId := lastActionId s |}.

Definition set_currentEvent (x : option RandomEvent) (s : GameState) : GameState :=
  {| profession := profession s; status := status s; origin := origin s;
     currentScene := currentScene s; money := money s; favor := favor s;
     rage := rage s; skillPoints := skillPoints s; bossHealth := bossHealth s;
     skillLevels := skillLevels s; cooldowns := cooldowns s;
     currentEvent := x; lastActionId := lastActionId s |}.

Definition set_lastActionId (x : option string) (s : GameState) : GameState :=
  {| profession := profession s; status := status s; origin := origin s;
     currentScene := currentScene s; money := money s; favor := favor s;
     rage := rage s; skillPoints := skillPoints s; bossHealth := bossHealth s;
     skillLevels := skillLevels s; cooldowns := cooldowns s;
     currentEvent := currentEvent s; lastActionId := x |}.

(** Modelled from the spec: the error kinds of section 7 (their
    declaration is missing; the context each carries for display is left
    out). *)
Inductive ActionError :=
  | UnknownAction
  | SceneMismatch
  | OnCooldown
  | InsufficientFunds
  | SkillPrerequisiteUnmet
  | SkillAlreadyMaxed
  | InsufficientSkillPoints
  | SessionTerminated
  | UnknownEventOrOption.

(** Modelled from the spec: the StateDelta of sections 4.3 and 6 (its
    declaration is missing), the field-level diff handed to the
    presentation layer. *)
Record StateDelta := {
  d_money : Z;
  d_favor : Z;
  d_rage : Z;
  d_sp : Z
}.

(** Modelled from the spec: what an inbound call returns (section 6), a
    StateDelta or a tagged error. *)
Inductive Result :=
  | Done (d : StateDelta)
  | Failed (e : ActionError).


(** Modelled from the spec: every inbound operation of section 6 reads and
    mutates the one session aggregate; here it takes the state and returns
    its answer with the state it leaves. *)
Definition Engine (A : Type) : Type := GameState → A * GameState.

Definition diff (s s' : GameState) : StateDelta :=
  {| d_money := money s' - money s; d_favor := favor s' - favor s;
     d_rage := rage s' - rage s; d_sp := skillPoints s' - skillPoints s |}.

(** Modelled from the spec: section 4.3 requires all effects of a call to
    commit together; the diff is the answer. *)
Definition commit (s s' : GameState) : Result * GameState := (Done (diff s s'), s').

(** Modelled from the spec: or none of them: the error is the answer and
    the state stays as it was. *)
Definition reject (e : ActionError) (s : GameState) : Result * GameState := (Failed e, s).

(** Modelled from the spec: the controlled random source of section 8, as
    the [i]-th uniform draw of a call. *)
Definition RandomSource : Type := nat → float.

(** Modelled from the spec: the constants that sections 4.1 to 4.5 name
    without fixing a value (the fixed rage decay of WORK, the larger rage
    increase of PLEASE, the favor penalty of REBEL, the small favor gain of
    TALK, each origin's money floor, the price of the rage rescue, the
    critical-hit probability, and the scene and boss health a fresh session
    starts with). *)
Record Tuning := {
  workRageDecay : Z;
  pleaseRageIncrease : Z;
  rebelFavorPenalty : Z;
  talkFavorGain : Z;
  moneyFloor : OriginType → Z;
  rescueCost : Z;
  critChance : float;
  initialScene : SceneType;
  initialBossHealth : Z
}.

(** One concrete choice, used wherever a property is run on an example. *)
Definition defaultTuning : Tuning :=
  {| workRageDecay := 2; pleaseRageIncrease := 20; rebelFavorPenalty := 5;
     talkFavorGain := 3;
     moneyFloor := λ o, match o with GRINDER => -100000 | _ => 0 end;
     rescueCost := 1000; critChance := 0.5%float;
     initialScene := WORKSTATION; initialBossHealth := 1000 |}.

(* ===================================================================== *)
(** ** The engine *)
(* ===================================================================== *)

(** Modelled from the spec: WON and FAILED are the terminal states of
    section 4.5. *)
Definition terminal (s : GameState) : bool :=
  match status s with RUNNING => false | WON | FAILED => true end.

(** Modelled from the spec: the player's level of a skill (section 3), 0
    when the skill was never bought. *)
Definition skillLevel (s : GameState) (id : string) : nat :=
  default 0%nat (skillLevels s !! id).

(** Modelled from the spec: a skill's levels count only up to its own
    maximum level (section 4.1, rule 1). *)
Definition effectiveLevel (s : GameState) (id : string) : Z :=
  match skillById id with
  | Some k => Z.of_nat (skillLevel s id `min` maxLevel k)
  | None => 0
  end.

(** Modelled from the spec: the rage ceiling is 100 plus the skill-granted
    increase (section 3); [sur_zen] grants +100 per level. *)
Definition rageCeiling (s : GameState) : Z :=
  100 + 100 * effectiveLevel s "sur_zen".

(** Modelled from the spec: the favor ceiling is the current rank's
    [maxFavor] (section 3). *)
Definition favorCeiling (s : GameState) : Z := maxFavor (JOBS (profession s)).

(** Modelled from the spec: the passive effect tag of an origin (section 3):
    increases work-category yield, enables spending money to reduce rage,
    doubles the favor-gain rate. *)
Inductive PassiveEffect := WorkYieldBoost | MoneyForRage | FavorRateDouble.

#[global] Instance PassiveEffect_eq_dec : EqDecision PassiveEffect.
Proof. solve_decision. Defined.

(** Modelled from the spec: which tag each origin carries, read off the
    [passive] texts of [ORIGINS]. *)
Definition passiveOf (o : OriginType) : PassiveEffect :=
  match o with
  | GRINDER => WorkYieldBoost
  | HEIR => MoneyForRage
  | SOCIALITE => FavorRateDouble
  end.

(** Modelled from the spec: rule 1 of the Modifier Resolver, the percentage
    a category gains from its skill ([eff_typing] +20% per level for WORK,
    [pol_smile] +25% for PLEASE, [sur_gym] +30% for VIOLENCE). *)
Definition skillBonusPct (cat : ActionType) (s : GameState) : Z :=
  match cat with
  | WORK => 20 * effectiveLevel s "eff_typing"
  | PLEASE => 25 * effectiveLevel s "pol_smile"
  | VIOLENCE => 30 * effectiveLevel s "sur_gym"
  | REBEL | TALK => 0
  end.

(** Modelled from the spec: rule 2 of the Modifier Resolver, the origin
    passive as a percentage of a resolved action's value.  The passive
    that doubles the favor-gain rate doubles the favor of TALK.  The
    work-yield passive (GRINDER's, whose text in [ORIGINS] speaks of the
    earnings of work) is no factor of the favor an action grants: the
    scenario of section 8 fixes the favor of [work_hard] under origin
    GRINDER at the skill-modified value, 10 x 1.4 = 14. *)
Definition originPct (o : OriginType) (cat : ActionType) : Z :=
  match passiveOf o, cat with
  | FavorRateDouble, TALK => 200
  | _, _ => 100
  end.

(** Modelled from the spec: the next rank of the ordered sequence; the
    final rank has no successor. *)
Definition nextRank (p : Profession) : option Profession :=
  match p with
  | INTERN => Some JUNIOR
  | JUNIOR => Some SENIOR
  | SENIOR => Some MANAGER
  | MANAGER => Some DIRECTOR
  | DIRECTOR => None
  end.

(** Modelled from the spec: clamping a meter to its bounds (section 3). *)
Definition clamp (lo hi x : Z) : Z := Z.max lo (Z.min hi x).

(** Modelled from the spec: applying an optional signed delta of an event
    outcome (section 4.4); an absent delta changes nothing. *)
Definition addDelta (d : option Z) (x : Z) : Z := x + default 0 d.

Section Engine.

Variable cfg : Tuning.

(** Modelled from the spec: rule 3 of the Modifier Resolver, the critical
    hit of PLEASE actions once [pol_master] is unlocked. *)
Definition critFactor (cat : ActionType) (s : GameState) (roll : float) : Z :=
  match cat with
  | PLEASE =>
      if bool_decide (0 < effectiveLevel s "pol_master")
         && PrimFloat.ltb roll (critChance cfg)
      then 2 else 1
  | _ => 1
  end.

(** Modelled from the spec: [resolve(category, baseValue, sessionState)]
    of section 4.1: the skill percentage, then the origin passive, then
    the critical doubling, rounded down once at the end. *)
Definition resolve (cat : ActionType) (baseValue : Z) (s : GameState)
    (roll : float) : Z :=
  (baseValue * (100 + skillBonusPct cat s) * originPct (origin s) cat
   * critFactor cat s roll) / 10000.

(** Modelled from the spec: the Cooldown Tracker of section 4.2 (its code
    is missing).  The EFFICIENCY skill [eff_coffee] shortens WORK
    cooldowns by 10% per level. *)
Definition cooldownCutPct (a : GameAction) (s : GameState) : Z :=
  match action_type a with
  | WORK => 10 * effectiveLevel s "eff_coffee"
  | _ => 0
  end.

(** Modelled from the spec: the reduced duration is applied before the
    comparison and never falls below one time unit. *)
Definition effectiveCooldown (a : GameAction) (s : GameState) : Z :=
  Z.max 1 (cooldown a * (100 - cooldownCutPct a s) / 100).

(** Modelled from the spec: an action's cooldown key is its id scoped to
    the current scene. *)
Definition cooldownKey (a : GameAction) (s : GameState) : SceneType * string :=
  (currentScene s, action_id a).

(** Modelled from the spec: the remaining cooldown is
    [cooldownDuration - (now - lastUsed)], clamped to 0 from below; an
    action never used has none. *)
Definition cooldownRemaining (a : GameAction) (now : Z) (s : GameState) : Z :=
  match cooldowns s !! cooldownKey a s with
  | None => 0
  | Some lastUsed => Z.max 0 (effectiveCooldown a s - (now - lastUsed))
  end.

(** Modelled from the spec: [isReady(actionId, now)]. *)
Definition isReady (a : GameAction) (now : Z) (s : GameState) : bool :=
  bool_decide (cooldownRemaining a now s = 0).

(** Modelled from the spec: [markUsed(actionId, now)]. *)
Definition markUsed (a : GameAction) (now : Z) (s : GameState) : GameState :=
  set_cooldowns (<[cooldownKey a s := now]> (cooldowns s)) s.

(** Modelled from the spec: step 1 of the Action Resolver looks the
    action definition up in the content catalog, by id; [UnknownAction] is
    for an id that no declared action carries. *)
Definition findAction (id : string) : option GameAction :=
  find (λ a, bool_decide (action_id a = id)) ALL_ACTIONS.

(** Modelled from the spec: step 2 of the Action Resolver: a declared
    target scene must be the session's current scene. *)
Definition sceneAllowed (a : GameAction) (s : GameState) : bool :=
  match targetScene a with
  | None => true
  | Some sc => bool_decide (sc = currentScene s)
  end.

(** Modelled from the spec: step 4 of the Action Resolver: a money cost
    must not drive the money below the origin's floor. *)
Definition affordable (a : GameAction) (s : GameState) : bool :=
  match cost a with
  | None => true
  | Some c => bool_decide (moneyFloor cfg (origin s) ≤ money s - c)
  end.

(** Modelled from the spec: step 6 of the Action Resolver, the effects of
    each category on the meters, before clamping. *)
Definition applyEffects (a : GameAction) (roll : float) (s : GameState) : GameState :=
  let v := resolve (action_type a) (value a) s roll in
  match action_type a with
  | WORK => set_rage (rage s - workRageDecay cfg) (set_favor (favor s + v) s)
  | PLEASE => set_rage (rage s + pleaseRageIncrease cfg) (set_favor (favor s + v) s)
  | REBEL => set_rage (rage s - v) (set_favor (favor s - rebelFavorPenalty cfg) s)
  | TALK =>
      set_favor (favor s + resolve TALK (talkFavorGain cfg) s roll) s
  | VIOLENCE =>
      set_rage (rage s - v)
        (set_bossHealth (bossHealth s - v)
           (set_money (money s - default 0 (cost a)) s))
  end.

(** Modelled from the spec: step 7 of the Action Resolver clamps favor to
    [0, ceiling] and rage to [0, rageCeiling]. *)
Definition clampMeters (s : GameState) : GameState :=
  set_rage (clamp 0 (rageCeiling s) (rage s))
    (set_favor (clamp 0 (favorCeiling s) (favor s)) s).

(** Modelled from the spec: the rescue rule of sections 3 and 4.5: an
    origin that can spend money to reduce rage pays [rescueCost] and has
    its rage capped just below the ceiling; it runs before the failure
    transition. *)
Definition canRescue (s : GameState) : bool :=
  bool_decide (passiveOf (origin s) = MoneyForRage)
  && bool_decide (moneyFloor cfg (origin s) ≤ money s - rescueCost cfg).

(** Modelled from the spec: rage at its ceiling ends the run in FAILED
    unless the rescue applies (section 4.5). *)
Definition rageCheck (s : GameState) : GameState :=
  if bool_decide (rage s = rageCeiling s) then
    if canRescue s
    then set_rage (rageCeiling s - 1) (set_money (money s - rescueCost cfg) s)
    else set_status FAILED s
  else s.

(** Modelled from the spec: on promotion the timers of the rank-specific
    actions (those not shared across scenes) are reset (section 4.5). *)
Definition resetRankCooldowns (p : Profession)
    (m : gmap (SceneType * string) Z) : gmap (SceneType * string) Z :=
  foldr (λ a acc, delete (BOSS_OFFICE, action_id a) acc) m (actions (JOBS p)).

(** Modelled from the spec: step 7 of the Action Resolver and the
    Progression State Machine of section 4.5.  Meters are clamped; favor
    at the ceiling wins the run at the final rank and promotes at any
    other rank (favor restarts at 0, rage is kept); otherwise, and after
    a promotion, rage at its ceiling fails the run unless rescued. *)
Definition progress (s : GameState) : GameState :=
  let s1 := clampMeters s in
  if bool_decide (favor s1 = favorCeiling s1) then
    match nextRank (profession s1) with
    | None => set_status WON s1
    | Some r =>
        rageCheck
          (set_cooldowns (resetRankCooldowns (profession s1) (cooldowns s1))
             (set_favor 0 (set_profession r s1)))
    end
  else rageCheck s1.

(** Modelled from the spec: the Event Selector's choice (section 4.4):
    one draw per catalog event, the first event in catalog order whose
    trigger probability exceeds its draw. *)
Fixpoint firstTriggered (rand : RandomSource) (i : nat)
    (es : list RandomEvent) : option RandomEvent :=
  match es with
  | [] => None
  | e :: es' =>
      if PrimFloat.ltb (rand i) (triggerChance e) then Some e
      else firstTriggered rand (S i) es'
  end.

(** Modelled from the spec: [pollForEvent(now)].  Nothing is surfaced on
    a terminal session or while an event is active; a selected event
    becomes the session's active event. *)
Definition pollForEvent (now : Z) (rand : RandomSource) : Engine (option RandomEvent) :=
  λ s,
    if terminal s then (None, s)
    else match currentEvent s with
         | Some _ => (None, s)
         | None =>
             match firstTriggered rand 0 RANDOM_EVENTS with
             | Some e => (Some e, set_currentEvent (Some e) s)
             | None => (None, s)
             end
         end.

(** Modelled from the spec: steps 5 and 6 of the Action Resolver.  Draw 0
    of [rand] is the critical-hit roll; a TALK action hands the remaining
    draws to the Event Selector, which may surface an event. *)
Definition effectsWithTalk (a : GameAction) (now : Z) (rand : RandomSource)
    (s : GameState) : GameState :=
  let s1 := applyEffects a (rand 0%nat) s in
  match action_type a with
  | TALK => snd (pollForEvent now (λ i, rand (S i)) s1)
  | _ => s1
  end.

(** Modelled from the spec: [resolveAction(actionId, now)], steps 1 to 8
    of section 4.3, preceded by the terminal-session check of section
    4.5.  The new state is built aside and committed only on success. *)
Definition resolveAction (actionId : string) (now : Z) (rand : RandomSource) : Engine Result :=
  λ s,
    if terminal s then reject SessionTerminated s
    else match findAction actionId with
         | None => reject UnknownAction s
         | Some a =>
             if negb (sceneAllowed a s) then reject SceneMismatch s
             else if negb (isReady a now s) then reject OnCooldown s
             else if negb (affordable a s) then reject InsufficientFunds s
             else
               commit s
                 (set_lastActionId (Some actionId)
                    (markUsed a now (progress (effectsWithTalk a now rand s))))
         end.

(** Modelled from the spec: the outcome deltas of an event option
    (section 4.4); the skill-point pool never goes below 0 (section 3). *)
Definition applyOutcome (o : EventOutcome) (s : GameState) : GameState :=
  set_skillPoints (Z.max 0 (addDelta (out_sp o) (skillPoints s)))
    (set_rage (addDelta (out_rage o) (rage s))
       (set_favor (addDelta (out_favor o) (favor s))
          (set_money (addDelta (out_money o) (money s)) s))).

(** Modelled from the spec: [resolveEventOption(eventId, index)]: the
    option's deltas go through the same clamp and progression path, then
    the active-event lock is cleared. *)
Definition resolveEventOption (eventId : string) (index : nat) : Engine Result :=
  λ s,
    if terminal s then reject SessionTerminated s
    else match currentEvent s with
         | None => reject UnknownEventOrOption s
         | Some e =>
             if negb (bool_decide (event_id e = eventId))
             then reject UnknownEventOrOption s
             else match options e !! index with
                  | None => reject UnknownEventOrOption s
                  | Some o =>
                      commit s (set_currentEvent None (progress (applyOutcome (outcome o) s)))
                  end
         end.

(** Modelled from the spec: a skill is purchasable once its prerequisite
    has at least level 1 (section 3). *)
Definition prerequisiteMet (k : SkillConfig) (s : GameState) : bool :=
  match reqId k with
  | None => true
  | Some r => bool_decide (0 < skillLevel s r)%nat
  end.

(** Modelled from the spec: [spendSkillPoint(skillId)]: one level for the
    skill's cost, or an error and no change.  The error list has no kind
    for an id outside the catalog; that case answers [UnknownAction]. *)
Definition spendSkillPoint (skillId : string) : Engine Result :=
  λ s,
    if terminal s then reject SessionTerminated s
    else match skillById skillId with
         | None => reject UnknownAction s
         | Some k =>
             if bool_decide (maxLevel k ≤ skillLevel s skillId)%nat
             then reject SkillAlreadyMaxed s
             else if negb (prerequisiteMet k s) then reject SkillPrerequisiteUnmet s
             else if bool_decide (skillPoints s < skill_cost k)
             then reject InsufficientSkillPoints s
             else
               commit s
                 (set_skillLevels (<[skillId := S (skillLevel s skillId)]> (skillLevels s))
                    (set_skillPoints (skillPoints s - skill_cost k) s))
         end.

(** Modelled from the spec: [changeScene(scene)]. *)
Definition changeScene (scene : SceneType) : Engine Result :=
  λ s,
    if terminal s then reject SessionTerminated s
    else commit s (set_currentScene scene s).

(** Modelled from the spec: [selectOrigin(originId)] creates the session;
    the origin seeds the starting money. *)
Definition selectOrigin (o : OriginType) : GameState :=
  {| profession := INTERN; status := RUNNING; origin := o;
     currentScene := initialScene cfg;
     money := bs_money (baseStats (ORIGINS o));
     favor := 0; rage := 0; skillPoints := 0;
     bossHealth := initialBossHealth cfg;
     skillLevels := ∅; cooldowns := ∅;
     currentEvent := None; lastActionId := None |}.

(** Modelled from the spec: the inbound calls of section 6 that a session
    can receive after its creation. *)
Inductive Op :=
  | OpAction (actionId : string) (now : Z) (rand : RandomSource)
  | OpEventOption (eventId : string) (index : nat)
  | OpPoll (now : Z) (rand : RandomSource)
  | OpSpend (skillId : string)
  | OpScene (scene : SceneType).

Definition step (op : Op) (s : GameState) : GameState :=
  match op with
  | OpAction id now rand => snd (resolveAction id now rand s)
  | OpEventOption id i => snd (resolveEventOption id i s)
  | OpPoll now rand => snd (pollForEvent now rand s)
  | OpSpend id => snd (spendSkillPoint id s)
  | OpScene sc => snd (changeScene sc s)
  end.

Inductive reachable : GameState → Prop :=
  | reach_init o : reachable (selectOrigin o)
  | reach_step op s : reachable s → reachable (step op s).

(** The states a session passes through under a sequence of calls. *)
Fixpoint trace (s : GameState) (ops : list Op) : list GameState :=
  match ops with
  | [] => [s]
  | op :: ops' => s :: trace (step op s) ops'
  end.

(** Number of transitions into WON along a list of successive states. *)
Fixpoint wonEntries (l : list GameState) : nat :=
  match l with
  | s :: ((s' :: _) as l') =>
      (if bool_decide (status s ≠ WON ∧ status s' = WON) then 1 else 0)%nat
      + wonEntries l'
  | _ => 0%nat
  end.

(** The state a session ends in under a sequence of calls. *)
Definition runOps (s : GameState) (ops : list Op) : GameState :=
  foldl (λ acc op, step op acc) s ops.

Definition inBounds (s : GameState) : Prop :=
  0 ≤ favor s ≤ favorCeiling s ∧ 0 ≤ rage s ≤ rageCeiling s.

(** The run is won exactly when the final rank's favor ceiling is met. *)
Definition wonAtCeiling (s : GameState) : Prop :=
  status s = WON ↔ profession s = DIRECTOR ∧ favor s = favorCeiling s.


End Engine.

(* ===================================================================== *)
(** ** Worked sessions *)
(* ===================================================================== *)

(** The catalog entry of [work_hard]. *)
Definition workHard : GameAction :=
  mkAction "work_hard" WORK None 10 1000 (Some WORKSTATION).

(** A random source whose every draw is 0.5: no event of the catalog
    triggers on it. *)
Definition steadyRand : RandomSource := λ _, 0.5%float.

(** A fresh GRINDER session that has just worked hard at time 0. *)
Definition busySession : GameState :=
  step defaultTuning (OpAction "work_hard" 0 steadyRand)
    (selectOrigin defaultTuning GRINDER).

(** A GRINDER session that went to HR and filed the onboarding form five
    times, as soon as the cooldown allowed: each filing is a PLEASE action
    worth no favor that raises the rage by 20, and the fifth meets the rage
    ceiling of 100. *)
Definition failedSession : GameState :=
  runOps defaultTuning (selectOrigin defaultTuning GRINDER)
    [ OpScene HR;
      OpAction "onboard" 0 steadyRand; OpAction "onboard" 10000 steadyRand;
      OpAction "onboard" 20000 steadyRand; OpAction "onboard" 30000 steadyRand;
      OpAction "onboard" 40000 steadyRand ].

(** An intern at the boss's office with 95 favor out of 100. *)
Definition internNearPromotion : GameState :=
  set_favor 95 (set_currentScene BOSS_OFFICE (selectOrigin defaultTuning SOCIALITE)).

(** A session with [sur_zen] at level 1 (rage ceiling 200) and
    190 rage, at the workstation. *)
Definition nearRageCeiling : GameState :=
  set_rage 190
    (set_skillLevels {[ "sur_zen" := 1%nat ]}
       (set_currentScene WORKSTATION (selectOrigin defaultTuning GRINDER))).

(** A director at the boss's office, 400 favor short of the final ceiling. *)
Definition directorNearWin : GameState :=
  set_favor 9599
    (set_profession DIRECTOR
       (set_currentScene BOSS_OFFICE (selectOrigin defaultTuning SOCIALITE))).

(** The same director after ringing the IPO bell (+500 favor). *)
Definition wonSession : GameState :=
  step defaultTuning (OpAction "ipo" 0 steadyRand) directorNearWin.

(** A fresh session on which a poll with every draw at 0.10 has surfaced
    the first event of the catalog. *)
Definition eventPending : GameState :=
  step defaultTuning (OpPoll 0 (λ _, 0.10%float)) (selectOrigin defaultTuning HEIR).

(* ===================================================================== *)
(** ** Presentation logic of [OfficeScene.tsx] *)
(* ===================================================================== *)

(** [String.prototype.includes]: [sub] occurs somewhere in [s].  The ids
    and words it is applied to are ASCII, so bytes and UTF-16 units agree. *)
Fixpoint includes (s sub : string) : bool :=
  String.prefix sub s
  || match s with
     | EmptyString => false
     | String _ s' => includes s' sub
     end.

(** [words.some(w => actionId.includes(w))]. *)
Definition someIncluded (words : list string) (actionId : string) : bool :=
  existsb (λ w, includes actionId w) words.

(** The emotion literals the components use (the [Emotion] type of
    [types.ts]). *)
Inductive Emotion := NEUTRAL | PAIN | HAPPY | ANGRY | KO | SHOCK | SUSPICIOUS.

#[global] Instance Emotion_eq_dec : EqDecision Emotion.
Proof. solve_decision. Defined.

(** The three pieces of component state the action animation drives. *)
Record AnimState := {
  playerAction : string;
  npcEmotion : Emotion;
  npcShake : bool
}.

(** The component's initial state, and the state the 800 ms timer restores. *)
Definition restAnim : AnimState :=
  {| playerAction := "idle"; npcEmotion := NEUTRAL; npcShake := false |}.

(** The effect on [gameState.lastActionId] ("Animation Trigger logic"): a
    null or empty id returns at once; otherwise the first word list with a
    word occurring in the id decides. *)
Definition animateAction (lastActionId : option string) (st : AnimState) : AnimState :=
  match lastActionId with
  | None => st
  | Some actionId =>
      if bool_decide (actionId = "") then st
      else if someIncluded ["punch"; "kick"; "combo"; "scold"; "slap"; "argue_hr"] actionId
      then {| playerAction := if includes actionId "kick" then "kick" else "punch";
              npcEmotion := PAIN; npcShake := true |}
      else if someIncluded ["tea"; "clean"; "gift"; "ot"; "help"] actionId
      then {| playerAction := "tea"; npcEmotion := HAPPY; npcShake := npcShake st |}
      else if someIncluded ["ignore"; "slack"; "refuse"; "resign"] actionId
      then {| playerAction := "rebel"; npcEmotion := ANGRY; npcShake := npcShake st |}
      else if someIncluded ["work_hard"; "type"] actionId
      then {| playerAction := "type"; npcEmotion := npcEmotion st; npcShake := npcShake st |}
      else {| playerAction := "work"; npcEmotion := npcEmotion st; npcShake := npcShake st |}
  end.

(** The [emotion] prop of the player's [Character]. *)
Definition playerEmotion (st : AnimState) : Emotion :=
  if bool_decide (playerAction st = "punch") || bool_decide (playerAction st = "kick")
  then ANGRY
  else if bool_decide (playerAction st = "tea") then HAPPY
  else NEUTRAL.

(** The [action] prop of the NPC's [Character]. *)
Definition npcAction (st : AnimState) : string :=
  if bool_decide (npcEmotion st = ANGRY) then "scold" else "idle".

(** The fields of [gameState] that [getDisplayEmotion] reads, as the
    binary64 numbers and the flag they are at run time. *)
Record SceneReads := {
  rd_currentScene : SceneType;
  rd_bossHealth : float;
  rd_favor : float;
  rd_maxFavor : float;
  rd_rage : float;
  rd_isResigning : bool
}.

(** [getDisplayEmotion]. *)
Definition getDisplayEmotion (npcEmo : Emotion) (g : SceneReads) : Emotion :=
  if bool_decide (npcEmo ≠ NEUTRAL) then npcEmo
  else
    let inOffice :=
      if bool_decide (rd_currentScene g = BOSS_OFFICE) then
        if PrimFloat.ltb (rd_bossHealth g) 200%float then Some KO
        else if PrimFloat.ltb (PrimFloat.mul (rd_maxFavor g) 0.8%float) (rd_favor g)
        then Some HAPPY
        else if PrimFloat.ltb 200%float (rd_rage g) then Some SHOCK
        else None
      else None in
    match inOffice with
    | Some e => e
    | None =>
        if bool_decide (rd_currentScene g = HR) && rd_isResigning g
        then SUSPICIOUS else NEUTRAL
    end.

(** A pair of client coordinates.  They are taken to be whole pixels, so
    that the handlers' additions and subtractions are exact. *)
Record Point := { pt_x : Z; pt_y : Z }.

(** The [contextMenu] state: where it was opened and whether it shows. *)
Record MenuState := { menu_x : Z; menu_y : Z; menu_show : bool }.

(** [prev => prev ? { ...prev, show: false } : null]. *)
Definition hideMenu (m : option MenuState) : option MenuState :=
  match m with
  | Some prev => Some {| menu_x := menu_x prev; menu_y := menu_y prev; menu_show := false |}
  | None => None
  end.

(** The player's drag-and-drop state: [playerPos] (its [y] is a distance
    from the bottom), [isDragging], [dragStartRef.current], [contextMenu]. *)
Record PlayerDrag := {
  playerPos : Point;
  isDragging : bool;
  dragStart : Point;
  contextMenu : option MenuState
}.

(** [handleMouseDown]: only the left button, and never at the workstation. *)
Definition handleMouseDown (isWorkstation : bool) (button x y : Z)
    (st : PlayerDrag) : PlayerDrag :=
  if bool_decide (button ≠ 0) then st
  else if isWorkstation then st
  else {| playerPos := playerPos st; isDragging := true;
          dragStart := {| pt_x := x; pt_y := y |};
          contextMenu := hideMenu (contextMenu st) |}.

(** [handleMouseMove]: the position follows the pointer by the step since
    the last event; the vertical step is subtracted. *)
Definition handleMouseMove (x y : Z) (st : PlayerDrag) : PlayerDrag :=
  if negb (isDragging st) then st
  else
    let dx := x - pt_x (dragStart st) in
    let dy := y - pt_y (dragStart st) in
    {| playerPos := {| pt_x := pt_x (playerPos st) + dx; pt_y := pt_y (playerPos st) - dy |};
       isDragging := isDragging st;
       dragStart := {| pt_x := x; pt_y := y |};
       contextMenu := contextMenu st |}.

(** [handleMouseUp]. *)
Definition handleMouseUp (st : PlayerDrag) : PlayerDrag :=
  {| playerPos := playerPos st; isDragging := false;
     dragStart := dragStart st; contextMenu := contextMenu st |}.

(** [handleContextMenu]. *)
Definition handleContextMenu (x y : Z) (st : PlayerDrag) : PlayerDrag :=
  {| playerPos := playerPos st; isDragging := isDragging st; dragStart := dragStart st;
     contextMenu := Some {| menu_x := x; menu_y := y; menu_show := true |} |}.

(** The pointer position after a run of moves that started at [p]. *)
Definition lastMove (p : Point) (moves : list Point) : Point :=
  foldl (λ _ m, m) p moves.

Definition playerMoves (moves : list Point) (st : PlayerDrag) : PlayerDrag :=
  foldl (λ acc m, handleMouseMove (pt_x m) (pt_y m) acc) st moves.

(** The state of a [DraggableItem]: [offset], [isDragging],
    [dragStartRef.current]. *)
Record ItemDrag := {
  offset : Point;
  itemDragging : bool;
  itemDragStart : Point
}.

(** [DraggableItem]'s [handleMouseDown]: the grab point is stored relative
    to the current offset. *)
Definition itemMouseDown (x y : Z) (st : ItemDrag) : ItemDrag :=
  {| offset := offset st; itemDragging := true;
     itemDragStart := {| pt_x := x - pt_x (offset st); pt_y := y - pt_y (offset st) |} |}.

(** [DraggableItem]'s [handleMouseMove]. *)
Definition itemMouseMove (x y : Z) (st : ItemDrag) : ItemDrag :=
  if negb (itemDragging st) then st
  else {| offset := {| pt_x := x - pt_x (itemDragStart st);
                       pt_y := y - pt_y (itemDragStart st) |};
          itemDragging := itemDragging st; itemDragStart := itemDragStart st |}.

(** [DraggableItem]'s [handleMouseUp]. *)
Definition itemMouseUp (st : ItemDrag) : ItemDrag :=
  {| offset := offset st; itemDragging := false; itemDragStart := itemDragStart st |}.

Definition itemMoves (moves : list Point) (st : ItemDrag) : ItemDrag :=
  foldl (λ acc m, itemMouseMove (pt_x m) (pt_y m) acc) st moves.

(** One whole gesture on an item: press at [p], the moves, release. *)
Definition itemGesture (p : Point) (moves : list Point) (st : ItemDrag) : ItemDrag :=
  itemMouseUp (itemMoves moves (itemMouseDown (pt_x p) (pt_y p) st)).

(** What a JSX expression [value && <span ...>text</span>] evaluates to
    for an optional number: [undefined] when the field is absent, the
    number itself when it is 0, the element otherwise. *)
Inductive JsxChild :=
  | NoChild
  | NumberChild (n : Z)
  | SpanChild (className text : string).

#[global] Instance JsxChild_eq_dec : EqDecision JsxChild.
Proof. solve_decision. Defined.

Definition guarded (d : option Z) (element : Z → JsxChild) : JsxChild :=
  match d with
  | None => NoChild
  | Some n => if bool_decide (n = 0) then NumberChild n else element n
  end.

(** What [handleNpcClick] does besides clearing the bubble. *)
Inductive NpcClick :=
  | ClickTriggersEvent
  | ClickSelects (a : GameAction)
  | ClickNothing.

#[global] Instance GameAction_eq_dec : EqDecision GameAction.
Proof. solve_decision. Defined.

(** The action object [handleNpcClick] builds in place. *)
Definition inlineGossip : GameAction := mkAction "gossip" TALK None 0 0 None.

(** A string or null is truthy when it is a non-empty string. *)
Definition truthyString (s : option string) : bool :=
  match s with
  | Some t => negb (bool_decide (t = ""))
  | None => false
  end.

(** [handleNpcClick]: the result and the [interactionBubble] it leaves;
    the flags say whether the optional callbacks were passed. *)
Definition handleNpcClick (interactionBubble : option string)
    (onTriggerEvent onSelectAction isWorkstation : bool) : NpcClick * option string :=
  if truthyString interactionBubble && onTriggerEvent
  then (ClickTriggersEvent, None)
  else if onSelectAction && isWorkstation
  then (ClickSelects inlineGossip, interactionBubble)
  else (ClickNothing, interactionBubble).

(** One button of the context menu: its React key, its class (violence
    style or not) and the cost badge (the label text is display only). *)
Record MenuButton := {
  btn_key : string;
  btn_className : string;
  btn_badge : JsxChild
}.

Definition menuButton (a : GameAction) : MenuButton :=
  {| btn_key := action_id a;
     btn_className :=
       if bool_decide (action_type a = VIOLENCE)
       then "text-red-900 hover:bg-red-100" else "text-slate-700 hover:bg-slate-100";
     btn_badge :=
       guarded (cost a)
         (λ c, SpanChild "text-xs bg-red-200 px-1 rounded text-red-800" ("-" +:+ pretty c)) |}.

(** The buttons of the context menu for a profession and a scene. *)
Definition contextMenuButtons (job : Profession) (scene : SceneType) : list MenuButton :=
  menuButton <$> GET_SCENE_ACTIONS job scene.

(* ===================================================================== *)
(** ** Presentation logic of [EventModal.tsx] *)
(* ===================================================================== *)

(** The three outcome hints of an option ("Outcome Preview"): a sign and a
    colour for money, favor and rage; the amounts are not shown. *)
Definition moneyHint (o : EventOutcome) : JsxChild :=
  guarded (out_money o)
    (λ n, SpanChild (if bool_decide (0 < n) then "text-green-600" else "text-red-500")
            ((if bool_decide (0 < n) then "+" else "") +:+ "$")).

Definition favorHint (o : EventOutcome) : JsxChild :=
  guarded (out_favor o)
    (λ n, SpanChild (if bool_decide (0 < n) then "text-yellow-600" else "text-slate-500")
            ((if bool_decide (0 < n) then "+" else "-") +:+ "Favor")).

Definition rageHint (o : EventOutcome) : JsxChild :=
  guarded (out_rage o)
    (λ n, SpanChild (if bool_decide (0 < n) then "text-red-600" else "text-green-500")
            ((if bool_decide (0 < n) then "+" else "-") +:+ "Rage")).

Definition outcomePreview (o : EventOutcome) : list JsxChild :=
  [moneyHint o; favorHint o; rageHint o].

(** The sign of an optional delta: absent, zero, positive or negative. *)
Definition deltaSign (d : option Z) : option Z := Z.sgn <$> d.

(** The options of the catalog (event id, label) whose preview holds a
    bare number instead of a hint or nothing. *)
Definition optionsPreviewingNumber : list (string * string) :=
  e ← RANDOM_EVENTS;
  o ← options e;
  if bool_decide (NumberChild 0 ∈ outcomePreview (outcome o))
  then [(event_id e, opt_label o)] else [].

(* ===================================================================== *)
(** ** [SoundManager] of [utils/audio.ts] *)
(* ===================================================================== *)

Inductive SoundType := SndSpawn | SndCrush | SndRage | SndEarn.

(** One scheduling call on an [AudioParam]; times are offsets from
    [ctx.currentTime] at the moment [play] runs. *)
Inductive ParamCmd :=
  | SetValueAtTime (v at_ : float)
  | ExponentialRampToValueAtTime (v at_ : float)
  | LinearRampToValueAtTime (v at_ : float).

(** What one [play] schedules: an oscillator through a gain node. *)
Record Voice := {
  oscType : string;
  frequencyCmds : list ParamCmd;
  gainCmds : list ParamCmd;
  startAt : float;
  stopAt : float
}.

(** The [switch] of [play]. *)
Definition voiceOf (type : SoundType) : Voice :=
  match type with
  | SndSpawn =>
      {| oscType := "sine";
         frequencyCmds := [SetValueAtTime 800 0; ExponentialRampToValueAtTime 400 0.1];
         gainCmds := [SetValueAtTime 0.05 0; ExponentialRampToValueAtTime 0.001 0.1];
         startAt := 0; stopAt := 0.1 |}
  | SndCrush =>
      {| oscType := "sawtooth";
         frequencyCmds := [SetValueAtTime 120 0; ExponentialRampToValueAtTime 10 0.15];
         gainCmds := [SetValueAtTime 0.1 0; ExponentialRampToValueAtTime 0.001 0.15];
         startAt := 0; stopAt := 0.15 |}
  | SndEarn =>
      {| oscType := "triangle";
         frequencyCmds := [SetValueAtTime 1200 0; SetValueAtTime 1600 0.1];
         gainCmds := [SetValueAtTime 0.05 0; LinearRampToValueAtTime 0 0.3];
         startAt := 0; stopAt := 0.3 |}
  | SndRage =>
      {| oscType := "sawtooth";
         frequencyCmds := [SetValueAtTime 200 0; LinearRampToValueAtTime 600 1.0];
         gainCmds := [SetValueAtTime 0.1 0; LinearRampToValueAtTime 0 1.0];
         startAt := 0; stopAt := 1.0 |}
  end%float.

(** The audio context as [SoundManager] sees it: whether it is suspended,
    how often [resume] was asked for, and the voices scheduled on it. *)
Record AudioCtx := {
  ctxSuspended : bool;
  resumeCalls : nat;
  voices : list Voice
}.

(** [SoundManager]: its [ctx] field, and a count of the [AudioContext]
    objects constructed so far. *)
Record SoundManager := {
  ctx : option AudioCtx;
  contextsCreated : nat
}.

Definition freshManager : SoundManager := {| ctx := None; contextsCreated := 0 |}.

(** [init]; [suspendedAtBirth] stands for the state the browser gives a
    new context. *)
Definition init (suspendedAtBirth : bool) (m : SoundManager) : SoundManager :=
  match ctx m with
  | Some _ => m
  | None =>
      {| ctx := Some {| ctxSuspended := suspendedAtBirth; resumeCalls := 0; voices := [] |};
         contextsCreated := S (contextsCreated m) |}
  end.

(** [play]: initialise if needed, ask a suspended context to resume, then
    schedule the voice. *)
Definition play (suspendedAtBirth : bool) (type : SoundType) (m : SoundManager) : SoundManager :=
  let m1 := match ctx m with None => init suspendedAtBirth m | Some _ => m end in
  match ctx m1 with
  | None => m1
  | Some c =>
      {| ctx := Some {| ctxSuspended := ctxSuspended c;
                        resumeCalls := if ctxSuspended c then S (resumeCalls c)
                                       else resumeCalls c;
                        voices := voices c ++ [voiceOf type] |};
         contextsCreated := contextsCreated m1 |}
  end.

(** A call on the manager, or the browser changing the context's state. *)
Inductive SoundCall :=
  | CallInit (suspendedAtBirth : bool)
  | CallPlay (suspendedAtBirth : bool) (type : SoundType)
  | BrowserSetsSuspended (b : bool).

Definition soundStep (call : SoundCall) (m : SoundManager) : SoundManager :=
  match call with
  | CallInit b => init b m
  | CallPlay b type => play b type m
  | BrowserSetsSuspended b =>
      match ctx m with
      | None => m
      | Some c =>
          {| ctx := Some {| ctxSuspended := b; resumeCalls := resumeCalls c;
                            voices := voices c |};
             contextsCreated := contextsCreated m |}
      end
  end.

Definition soundRun (calls : list SoundCall) (m : SoundManager) : SoundManager :=
  foldl (λ acc call, soundStep call acc) m calls.

(** The voices scheduled so far (none without a context). *)
Definition voicesOf (m : SoundManager) : list Voice :=
  match ctx m with Some c => voices c | None => [] end.

Definition isManagerCall (call : SoundCall) : Prop :=
  match call with BrowserSetsSuspended _ => False | _ => True end.

Definition plays (calls : list SoundCall) : list SoundType :=
  omap (λ call, match call with CallPlay _ type => Some type | _ => None end) calls.

Definition paramValue (c : ParamCmd) : float :=
  match c with
  | SetValueAtTime v _ | ExponentialRampToValueAtTime v _ | LinearRampToValueAtTime v _ => v
  end.

Definition paramTime (c : ParamCmd) : float :=
  match c with
  | SetValueAtTime _ t | ExponentialRampToValueAtTime _ t | LinearRampToValueAtTime _ t => t
  end.

(** An exponential ramp is only defined between values that are not zero
    and of one sign: every exponential ramp of the list ends at a positive
    value and follows a command with a positive value. *)
Fixpoint expRampsPositive (prev : option float) (cmds : list ParamCmd) : bool :=
  match cmds with
  | [] => true
  | c :: rest =>
      (match c with
       | ExponentialRampToValueAtTime v _ =>
           PrimFloat.ltb 0 v
           && match prev with Some p => PrimFloat.ltb 0 p | None => false end
       | _ => true
       end)
      && expRampsPositive (Some (paramValue c)) rest
  end.

(** The commands of a list are scheduled in non-decreasing time order. *)
Fixpoint timesAscend (prev : float) (cmds : list ParamCmd) : bool :=
  match cmds with
  | [] => true
  | c :: rest => PrimFloat.leb prev (paramTime c) && timesAscend (paramTime c) rest
  end.

(* ===================================================================== *)
(** ** Properties of the catalog *)
(* ===================================================================== *)

(** Proves [Forall P l] for a table [l] written out entry by entry, with
    [tac] proving [P] of each entry. *)
Ltac each_entry tac :=
  repeat (apply Forall_cons; split; [ tac | ]); by apply Forall_nil.

Section CatalogProperties.

Lemma NPCS_keys_are_roles (k : string) (c : NPCConfig) :
  NPCS !! k = Some c → npc_role c = k.
Proof.
  unfold NPCS. simpl. intros H.
  destruct (decide (k = "HR")) as [->|Hhr].
  { rewrite lookup_insert_eq in H. by inversion H. }
  rewrite lookup_insert_ne in H by done.
  destruct (decide (k = "COLLEAGUE")) as [->|Hco].
  { rewrite lookup_insert_eq in H. by inversion H. }
  rewrite lookup_insert_ne in H by done.
  by rewrite lookup_empty in H.
Qed.

Lemma reqIds_resolve : Forall reqIdResolves SKILLS.
Proof. repeat constructor; vm_compute; eauto. Qed.

(** C1, counterexample: the first event of [RANDOM_EVENTS] is
    [evt_boss_secret], its [npcRole] is ['BOSS'], and [NPCS] has no entry
    under that key, so not every [npcRole] resolves in [NPCS]. *)
Lemma boss_role_has_no_npc_entry :
  event_id <$> RANDOM_EVENTS !! 0%nat = Some "evt_boss_secret"
  ∧ npcRole <$> RANDOM_EVENTS !! 0%nat = Some "BOSS"
  ∧ NPCS !! "BOSS" = None
  ∧ ¬ (Forall reqIdResolves SKILLS ∧ Forall npcRoleResolves RANDOM_EVENTS).
Proof.
  split; [reflexivity|]. split; [reflexivity|]. split; [reflexivity|].
  intros [_ H]. apply Forall_cons in H as [H _].
  unfold npcRoleResolves in H. simpl in H.
  destruct H as [c Hc]. discriminate Hc.
Qed.

(** C1, as amended: every [reqId] of [SKILLS] resolves to a skill of the
    table, and every [npcRole] of [RANDOM_EVENTS] is either ['BOSS'] or
    the key of an [NPCS] entry. *)
Theorem catalog_references_resolve :
  Forall reqIdResolves SKILLS ∧ Forall npcRoleKnown RANDOM_EVENTS.
Proof.
  split; [exact reqIds_resolve|].
  unfold npcRoleKnown, npcRoleResolves.
  each_entry ltac:(first [ by left | right; vm_compute; eauto ]).
Qed.

(** C7: every event of [RANDOM_EVENTS] has a trigger probability in the
    closed interval [0,1] and between 2 and 4 options; each option carries
    an outcome record (optional signed deltas to money, favor, rage and
    skill points) with a feedback text that is not empty. *)
Theorem random_events_well_formed : Forall eventWellFormed RANDOM_EVENTS.
Proof.
  each_entry ltac:(split; [ vm_compute; reflexivity
                          | split; [ simpl; lia | each_entry ltac:(discriminate) ] ]).
Qed.

Lemma prereq_ranked_earlier :
  Forall (λ k, ∀ r, reqId k = Some r →
                    (skillRank r < skillRank (skill_id k))%nat) SKILLS.
Proof.
  each_entry ltac:(intros r Hr; simpl in Hr;
                   first [ discriminate Hr | injection Hr as <- ];
                   vm_compute; lia).
Qed.

Lemma requires_rank (k t : SkillConfig) :
  requires k t → (skillRank (skill_id t) < skillRank (skill_id k))%nat.
Proof.
  intros (Hk & _ & Hreq).
  pose proof prereq_ranked_earlier as H.
  rewrite Forall_forall in H. by apply (H k Hk).
Qed.

Lemma tc_requires_rank (k t : SkillConfig) :
  tc requires k t → (skillRank (skill_id t) < skillRank (skill_id k))%nat.
Proof.
  induction 1 as [k t H | k m t H _ IH].
  - by apply requires_rank.
  - apply requires_rank in H. lia.
Qed.

Lemma requires_acyclic (k : SkillConfig) : ¬ tc requires k k.
Proof. intros H. apply tc_requires_rank in H. lia. Qed.

Lemma categories_are_chains (c : SkillCategory) : isChainFrom None (skillsOf c).
Proof. destruct c; vm_compute; tauto. Qed.

(** C8: every skill has a maximum level between 1 and 5; a declared
    [reqId] names a skill of the same category; within each category the
    skills form one linear chain (the first has no prerequisite, each
    later one requires exactly its predecessor); skill ids are unique and
    no skill requires itself through any number of links. *)
Theorem skills_form_category_chains :
  Forall (λ k, (1 ≤ maxLevel k ≤ 5)%nat) SKILLS
  ∧ Forall prereqInCategory SKILLS
  ∧ (∀ c, isChainFrom None (skillsOf c))
  ∧ NoDup (skill_id <$> SKILLS)
  ∧ (∀ k, ¬ tc requires k k).
Proof.
  split; [ each_entry ltac:(simpl; lia) | ].
  split; [ each_entry ltac:(vm_compute; eauto) | ].
  split; [ exact categories_are_chains | ].
  split; [ | exact requires_acyclic ].
  apply (bool_decide_unpack _). vm_compute. exact I.
Qed.

(** C9: [GET_SCENE_ACTIONS] answers [HR_ACTIONS] for the HR scene and
    [WORK_ACTIONS] for the workstation, whatever the profession, and
    otherwise the profession's own actions followed by the four
    [COMMON_VIOLENCE] actions; an action it returns that declares a
    [targetScene] declares the scene asked for. *)
Theorem scene_actions_by_scene (job : Profession) (scene : SceneType) :
  GET_SCENE_ACTIONS job scene
  = match scene with
    | HR => HR_ACTIONS
    | WORKSTATION => WORK_ACTIONS
    | BOSS_OFFICE => (actions (JOBS job) ++ COMMON_VIOLENCE)%list
    end
  ∧ length COMMON_VIOLENCE = 4%nat
  ∧ Forall (λ a, ∀ sc, targetScene a = Some sc → sc = scene)
      (GET_SCENE_ACTIONS job scene).
Proof.
  split; [ by destruct scene | ].
  split; [ reflexivity | ].
  destruct job, scene; vm_compute;
    each_entry ltac:(intros sc Hsc; congruence).
Qed.

(** C10: across the action catalog ([COMMON_VIOLENCE], [WORK_ACTIONS],
    [HR_ACTIONS] and the action list of every rank of [JOBS]) an action
    declares a cost exactly when its type is VIOLENCE, and a declared
    cost is strictly positive. *)
Theorem cost_iff_violence (a : GameAction) : inCatalog a → costDiscipline a.
Proof.
  assert (Hlist : ∀ l, Forall costDiscipline l → a ∈ l → costDiscipline a).
  { intros l Hl Ha. rewrite Forall_forall in Hl. by apply Hl. }
  assert (Hone : ∀ b, (is_Some (cost b) ∧ action_type b = VIOLENCE
                        ∧ (∀ c, cost b = Some c → 0 < c))
                      ∨ (cost b = None ∧ action_type b ≠ VIOLENCE)
                      → costDiscipline b).
  { intros b [(Hc & Ht & Hp) | (Hc & Ht)]; split; try done.
    - rewrite Hc. split; [ by intros [? ?] | done ].
    - intros c Hcc. congruence. }
  intros [H | [H | [H | [p H]]]]; revert H; apply Hlist;
    try destruct p;
    each_entry ltac:(apply Hone;
                     first [ left; split; [ by eexists | split; [ reflexivity | ] ];
                             intros c Hc; simpl in Hc; injection Hc as <-; lia
                           | right; split; [ reflexivity | discriminate ] ]).
Qed.

Lemma cost_iff_violence_witness :
  inCatalog (mkAction "punch" VIOLENCE (Some 100) 20 500 None)
  ∧ costDiscipline (mkAction "punch" VIOLENCE (Some 100) 20 500 None).
Proof.
  assert (H : inCatalog (mkAction "punch" VIOLENCE (Some 100) 20 500 None)).
  { left. unfold COMMON_VIOLENCE. apply list_elem_of_here. }
  split; [ exact H | exact (cost_iff_violence _ H) ].
Defined.

Lemma inCatalog_ALL_ACTIONS (a : GameAction) : inCatalog a ↔ a ∈ ALL_ACTIONS.
Proof.
  unfold inCatalog, ALL_ACTIONS, RANKS. cbn [map concat].
  rewrite !elem_of_app, elem_of_nil. split.
  - intros [H | [H | [H | [p H]]]]; [ tauto | tauto | tauto | ].
    destruct p; tauto.
  - intros [H | [H | [H | H]]]; [ tauto | tauto | tauto | ].
    do 3 right.
    destruct H as [H | [H | [H | [H | [H | []]]]]];
      [ exists INTERN | exists JUNIOR | exists SENIOR | exists MANAGER | exists DIRECTOR ];
      exact H.
Qed.

Lemma findAction_listed : Forall (λ a, findAction (action_id a) = Some a) ALL_ACTIONS.
Proof.
  unfold ALL_ACTIONS, RANKS. cbn [map concat app COMMON_VIOLENCE WORK_ACTIONS HR_ACTIONS
                                   JOBS actions].
  each_entry ltac:(reflexivity).
Qed.

(** The lookup by id finds every action of the catalog, itself. *)
Lemma findAction_of_catalog (a : GameAction) :
  inCatalog a → findAction (action_id a) = Some a.
Proof.
  intros H. apply inCatalog_ALL_ACTIONS in H.
  pose proof findAction_listed as Hall. rewrite Forall_forall in Hall. by apply Hall.
Qed.

End CatalogProperties.

(* ===================================================================== *)
(** ** Properties of the engine *)
(* ===================================================================== *)

Section EngineProperties.

Variable cfg : Tuning.

(** *** Ceilings *)

Lemma effectiveLevel_nonneg (s : GameState) (id : string) : 0 ≤ effectiveLevel s id.
Proof. unfold effectiveLevel. destruct (skillById id); lia. Qed.

Lemma rageCeiling_ge_100 (s : GameState) : 100 ≤ rageCeiling s.
Proof. unfold rageCeiling. pose proof (effectiveLevel_nonneg s "sur_zen"). lia. Qed.

Lemma favorCeiling_pos (s : GameState) : 0 < favorCeiling s.
Proof. unfold favorCeiling. destruct (profession s); simpl; lia. Qed.

Lemma rageCeiling_ext (s s' : GameState) :
  skillLevels s' = skillLevels s → rageCeiling s' = rageCeiling s.
Proof.
  intros H. unfold rageCeiling, effectiveLevel, skillLevel. by rewrite H.
Qed.

Lemma clamp_between (lo hi x : Z) : lo ≤ hi → lo ≤ clamp lo hi x ≤ hi.
Proof. unfold clamp. lia. Qed.

Lemma inBounds_ext (s s' : GameState) :
  profession s' = profession s → skillLevels s' = skillLevels s →
  favor s' = favor s → rage s' = rage s →
  inBounds s → inBounds s'.
Proof.
  unfold inBounds, favorCeiling. intros Hp Hk Hf Hr.
  rewrite (rageCeiling_ext s s' Hk), Hp, Hf, Hr. done.
Qed.

(** *** The progression step *)

Lemma clampMeters_inBounds (s : GameState) : inBounds (clampMeters s).
Proof.
  unfold inBounds, clampMeters. simpl.
  change (favorCeiling (set_rage _ _)) with (favorCeiling s).
  rewrite (rageCeiling_ext s (set_rage _ _)) by done.
  split; apply clamp_between.
  - pose proof (favorCeiling_pos s). lia.
  - pose proof (rageCeiling_ge_100 s). lia.
Qed.

Lemma rageCheck_inBounds (s : GameState) : inBounds s → inBounds (rageCheck cfg s).
Proof.
  intros [Hf Hr]. unfold rageCheck.
  case_bool_decide; [ | done ].
  destruct (canRescue cfg s).
  - split; [ exact Hf | ]. simpl.
    rewrite (rageCeiling_ext s (set_rage _ _)) by done.
    pose proof (rageCeiling_ge_100 s). lia.
  - by split.
Qed.

Lemma progress_inBounds (s : GameState) : inBounds (progress cfg s).
Proof.
  unfold progress. pose proof (clampMeters_inBounds s) as Hc.
  set (s1 := clampMeters s) in *.
  case_bool_decide as Hfav; [ | by apply rageCheck_inBounds ].
  destruct (nextRank (profession s1)) as [r|]; [ | exact Hc ].
  apply rageCheck_inBounds. destruct Hc as [_ Hr].
  split; [ | exact Hr ].
  simpl. unfold favorCeiling. simpl. destruct r; simpl; lia.
Qed.

(** *** Shape of each call's answer *)

Lemma resolveAction_failure (id : string) (now : Z) (rand : RandomSource)
    (s s' : GameState) (e : ActionError) :
  resolveAction cfg id now rand s = (Failed e, s') → s' = s.
Proof.
  unfold resolveAction, reject, commit.
  repeat case_match; intros ?; by simplify_eq.
Qed.

Lemma resolveAction_success (id : string) (now : Z) (rand : RandomSource)
    (s s' : GameState) (d : StateDelta) :
  resolveAction cfg id now rand s = (Done d, s') →
  ∃ a, terminal s = false
       ∧ findAction id = Some a
       ∧ s' = set_lastActionId (Some id)
                (markUsed a now (progress cfg (effectsWithTalk cfg a now rand s))).
Proof.
  unfold resolveAction, reject, commit.
  repeat case_match; intros ?; simplify_eq. eauto.
Qed.

Lemma resolveEventOption_failure (id : string) (i : nat)
    (s s' : GameState) (e : ActionError) :
  resolveEventOption cfg id i s = (Failed e, s') → s' = s.
Proof.
  unfold resolveEventOption, reject, commit.
  repeat case_match; intros ?; by simplify_eq.
Qed.

Lemma resolveEventOption_success (id : string) (i : nat)
    (s s' : GameState) (d : StateDelta) :
  resolveEventOption cfg id i s = (Done d, s') →
  ∃ e o, terminal s = false
         ∧ currentEvent s = Some e
         ∧ options e !! i = Some o
         ∧ s' = set_currentEvent None (progress cfg (applyOutcome (outcome o) s)).
Proof.
  unfold resolveEventOption, reject, commit.
  repeat case_match; intros ?; simplify_eq. eauto 10.
Qed.

Lemma pollForEvent_state (now : Z) (rand : RandomSource) (s : GameState) :
  snd (pollForEvent now rand s) = s
  ∨ ∃ e, currentEvent s = None
         ∧ pollForEvent now rand s = (Some e, set_currentEvent (Some e) s).
Proof.
  unfold pollForEvent. repeat case_match; simpl; eauto.
Qed.

Lemma spendSkillPoint_state (id : string) (s : GameState) :
  snd (spendSkillPoint id s) = s
  ∨ snd (spendSkillPoint id s)
    = set_skillLevels (<[id := S (skillLevel s id)]> (skillLevels s))
        (set_skillPoints
           (skillPoints s - default 0 (skill_cost <$> skillById id)) s).
Proof.
  unfold spendSkillPoint, reject, commit.
  repeat case_match; simpl; eauto.
Qed.

Lemma changeScene_state (sc : SceneType) (s : GameState) :
  snd (changeScene sc s) = s ∨ snd (changeScene sc s) = set_currentScene sc s.
Proof. unfold changeScene, reject, commit. case_match; simpl; eauto. Qed.

(** *** Meters stay within their bounds *)

Lemma spend_raises_ceiling (id : string) (s : GameState) (x : Z) :
  rageCeiling s
  ≤ rageCeiling (set_skillLevels (<[id := S (skillLevel s id)]> (skillLevels s))
                   (set_skillPoints x s)).
Proof.
  unfold rageCeiling, effectiveLevel.
  destruct (skillById "sur_zen") as [k|]; [ | done ].
  unfold skillLevel at 2. simpl.
  destruct (decide (id = "sur_zen")) as [->|Hne].
  - rewrite lookup_insert_eq. change (default 0%nat (Some ?n)) with n. lia.
  - rewrite lookup_insert_ne by done. unfold skillLevel. lia.
Qed.

Lemma resolveAction_inBounds (id : string) (now : Z) (rand : RandomSource)
    (s s' : GameState) (d : StateDelta) :
  resolveAction cfg id now rand s = (Done d, s') → inBounds s'.
Proof.
  intros H. apply resolveAction_success in H as (a & _ & _ & ->).
  generalize (progress_inBounds (effectsWithTalk cfg a now rand s)).
  generalize (progress cfg (effectsWithTalk cfg a now rand s)). intros x Hx.
  by apply (inBounds_ext x).
Qed.

Lemma resolveEventOption_inBounds (id : string) (i : nat)
    (s s' : GameState) (d : StateDelta) :
  resolveEventOption cfg id i s = (Done d, s') → inBounds s'.
Proof.
  intros H. apply resolveEventOption_success in H as (e & o & _ & _ & _ & ->).
  generalize (progress_inBounds (applyOutcome (outcome o) s)).
  generalize (progress cfg (applyOutcome (outcome o) s)). intros x Hx.
  by apply (inBounds_ext x).
Qed.

Lemma selectOrigin_inBounds (o : OriginType) : inBounds (selectOrigin cfg o).
Proof.
  split; simpl.
  - pose proof (favorCeiling_pos (selectOrigin cfg o)). lia.
  - pose proof (rageCeiling_ge_100 (selectOrigin cfg o)). lia.
Qed.

Lemma step_inBounds (op : Op) (s : GameState) :
  inBounds s → inBounds (step cfg op s).
Proof.
  intros Hs. destruct op as [id now rand | id i | now rand | id | sc]; simpl.
  - destruct (resolveAction cfg id now rand s) as [[d|e] s'] eqn:E; simpl.
    + by eapply resolveAction_inBounds.
    + by rewrite (resolveAction_failure _ _ _ _ _ _ E).
  - destruct (resolveEventOption cfg id i s) as [[d|e] s'] eqn:E; simpl.
    + by eapply resolveEventOption_inBounds.
    + by rewrite (resolveEventOption_failure _ _ _ _ _ E).
  - destruct (pollForEvent_state now rand s) as [-> | (e & _ & ->)]; [ done | ].
    simpl. by eapply inBounds_ext.
  - destruct (spendSkillPoint_state id s) as [-> | ->]; [ done | ].
    destruct Hs as [Hf Hr]. split; [ exact Hf | ].
    pose proof (spend_raises_ceiling id s
                  (skillPoints s - default 0 (skill_cost <$> skillById id))).
    simpl in *. lia.
  - destruct (changeScene_state sc s) as [-> | ->]; [ done | ].
    by eapply inBounds_ext.
Qed.

Lemma reachable_inBounds (s : GameState) : reachable cfg s → inBounds s.
Proof.
  induction 1 as [o | op s _ IH].
  - apply selectOrigin_inBounds.
  - by apply step_inBounds.
Qed.

(** C3: after every resolved action and every resolved event option the
    favor lies in [0, the current rank's ceiling] and the rage in
    [0, rageCeiling], and so it does in every state a session can reach
    from its creation. *)
Theorem meters_within_bounds :
  (∀ id now rand s d s',
      resolveAction cfg id now rand s = (Done d, s') → inBounds s')
  ∧ (∀ id i s d s',
      resolveEventOption cfg id i s = (Done d, s') → inBounds s')
  ∧ (∀ s, reachable cfg s → inBounds s).
Proof.
  split; [ | split ].
  - intros id now rand s d s'. apply resolveAction_inBounds.
  - intros id i s d s'. apply resolveEventOption_inBounds.
  - apply reachable_inBounds.
Qed.

(** *** What the progression step leaves alone *)

Lemma rageCheck_fields (s : GameState) :
  profession (rageCheck cfg s) = profession s
  ∧ favor (rageCheck cfg s) = favor s
  ∧ currentEvent (rageCheck cfg s) = currentEvent s
  ∧ (status (rageCheck cfg s) = status s ∨ status (rageCheck cfg s) = FAILED).
Proof. unfold rageCheck. repeat case_match; simpl; auto. Qed.

Lemma applyEffects_fields (a : GameAction) (roll : float) (s : GameState) :
  status (applyEffects cfg a roll s) = status s
  ∧ currentEvent (applyEffects cfg a roll s) = currentEvent s.
Proof. unfold applyEffects. destruct (action_type a); simpl; auto. Qed.

Lemma applyOutcome_status (o : EventOutcome) (s : GameState) :
  status (applyOutcome o s) = status s.
Proof. reflexivity. Qed.

Lemma progress_currentEvent (s : GameState) :
  currentEvent (progress cfg s) = currentEvent s.
Proof.
  unfold progress. repeat case_match; simpl; try done;
    by rewrite (proj1 (proj2 (proj2 (rageCheck_fields _)))).
Qed.

Lemma effectsWithTalk_status (a : GameAction) (now : Z) (rand : RandomSource)
    (s : GameState) :
  status (effectsWithTalk cfg a now rand s) = status s.
Proof.
  unfold effectsWithTalk.
  pose proof (applyEffects_fields a (rand 0%nat) s) as [Hst _].
  destruct (action_type a); try exact Hst.
  destruct (pollForEvent_state now (λ i, rand (S i)) (applyEffects cfg a (rand 0%nat) s))
    as [-> | (e & _ & ->)]; exact Hst.
Qed.

Lemma effectsWithTalk_locked (a : GameAction) (now : Z) (rand : RandomSource)
    (s : GameState) :
  is_Some (currentEvent s) →
  currentEvent (effectsWithTalk cfg a now rand s) = currentEvent s.
Proof.
  intros Hs. unfold effectsWithTalk.
  pose proof (applyEffects_fields a (rand 0%nat) s) as [_ Hev].
  destruct (action_type a); try exact Hev.
  destruct (pollForEvent_state now (λ i, rand (S i)) (applyEffects cfg a (rand 0%nat) s))
    as [-> | (e & Hnone & _)]; [ exact Hev | ].
  rewrite Hev in Hnone. rewrite Hnone in Hs. by destruct Hs.
Qed.

(** *** Winning *)

Lemma progress_won_iff (s : GameState) :
  status s = RUNNING → wonAtCeiling (progress cfg s).
Proof.
  intros Hrun. unfold wonAtCeiling, progress.
  assert (Hst : status (clampMeters s) = RUNNING) by exact Hrun.
  revert Hst. generalize (clampMeters s). clear s Hrun. intros s Hrun.
  case_bool_decide as Hfav.
  - destruct (profession s) eqn:Hp; simpl.
    5: { unfold favorCeiling in *. simpl. rewrite Hp in *. by split. }
    all: match goal with |- context [rageCheck cfg ?x] =>
           destruct (rageCheck_fields x) as (Hpr & Hfv & _ & Hstat);
           unfold favorCeiling; rewrite Hpr, Hfv; simpl in Hstat |- *;
           rewrite Hrun in Hstat
         end;
      split; [ intros Hw; destruct Hstat; congruence
             | intros [Hd Hc]; try discriminate Hd; simpl in Hc; discriminate Hc ].
  - destruct (rageCheck_fields s) as (Hpr & Hfv & _ & Hstat).
    unfold favorCeiling in *. rewrite Hpr, Hfv, Hrun in *.
    split; [ intros Hw; destruct Hstat; congruence | intros [_ Hc]; done ].
Qed.

Lemma wonAtCeiling_marked (x : GameState) (id : option string) (a : GameAction) (now : Z) :
  wonAtCeiling x → wonAtCeiling (set_lastActionId id (markUsed a now x)).
Proof. intros H. exact H. Qed.

Lemma wonAtCeiling_unlocked (x : GameState) :
  wonAtCeiling x → wonAtCeiling (set_currentEvent None x).
Proof. intros H. exact H. Qed.

Lemma terminal_false_running (s : GameState) : terminal s = false → status s = RUNNING.
Proof. unfold terminal. by destruct (status s). Qed.

Lemma resolveAction_won_iff (id : string) (now : Z) (rand : RandomSource)
    (s s' : GameState) (d : StateDelta) :
  resolveAction cfg id now rand s = (Done d, s') → wonAtCeiling s'.
Proof.
  intros H. apply resolveAction_success in H as (a & Hterm & _ & ->).
  apply terminal_false_running in Hterm.
  rewrite <- (effectsWithTalk_status a now rand s) in Hterm.
  apply wonAtCeiling_marked, progress_won_iff, Hterm.
Qed.

Lemma resolveEventOption_won_iff (id : string) (i : nat)
    (s s' : GameState) (d : StateDelta) :
  resolveEventOption cfg id i s = (Done d, s') → wonAtCeiling s'.
Proof.
  intros H. apply resolveEventOption_success in H as (e & o & Hterm & _ & _ & ->).
  apply terminal_false_running in Hterm.
  rewrite <- (applyOutcome_status (outcome o) s) in Hterm.
  apply wonAtCeiling_unlocked, progress_won_iff, Hterm.
Qed.

(** *** Terminal sessions *)

Lemma terminal_resolveAction (id : string) (now : Z) (rand : RandomSource)
    (s : GameState) :
  terminal s = true → resolveAction cfg id now rand s = (Failed SessionTerminated, s).
Proof. intros H. unfold resolveAction. by rewrite H. Qed.

Lemma terminal_resolveEventOption (id : string) (i : nat) (s : GameState) :
  terminal s = true → resolveEventOption cfg id i s = (Failed SessionTerminated, s).
Proof. intros H. unfold resolveEventOption. by rewrite H. Qed.

Lemma terminal_step (op : Op) (s : GameState) :
  terminal s = true → step cfg op s = s.
Proof.
  intros H. destruct op; simpl.
  - by rewrite terminal_resolveAction.
  - by rewrite terminal_resolveEventOption.
  - unfold pollForEvent. by rewrite H.
  - unfold spendSkillPoint. by rewrite H.
  - unfold changeScene. by rewrite H.
Qed.

Lemma terminal_trace_no_entry (s : GameState) (ops : list Op) :
  terminal s = true → wonEntries (trace cfg s ops) = 0%nat.
Proof.
  intros H. induction ops as [|op ops IH]; [ done | ].
  cbn [trace]. rewrite (terminal_step op s H).
  destruct ops as [|op' ops]; cbn [trace wonEntries] in *;
    (rewrite bool_decide_eq_false_2; [ | intros [? ?]; done ]).
  - done.
  - exact IH.
Qed.

Lemma terminal_runOps (s : GameState) (ops : list Op) :
  terminal s = true → runOps cfg s ops = s.
Proof.
  intros H. induction ops as [|op ops IH]; [ done | ].
  unfold runOps in *. cbn [foldl]. by rewrite (terminal_step op s H).
Qed.

Lemma won_terminal (s : GameState) : status s = WON → terminal s = true.
Proof. unfold terminal. by intros ->. Qed.

Lemma wonEntries_cons (s : GameState) (op : Op) (ops : list Op) :
  wonEntries (trace cfg s (op :: ops))
  = ((if bool_decide (status s ≠ WON ∧ status (step cfg op s) = WON) then 1 else 0)
     + wonEntries (trace cfg (step cfg op s) ops))%nat.
Proof. destruct ops; reflexivity. Qed.

Lemma won_entered_at_most_once (s : GameState) (ops : list Op) :
  (wonEntries (trace cfg s ops) ≤ 1)%nat.
Proof.
  revert s. induction ops as [|op ops IH]; intros s; [ simpl; lia | ].
  rewrite wonEntries_cons. case_bool_decide as Hin.
  - destruct Hin as [_ Hwon].
    rewrite (terminal_trace_no_entry _ ops (won_terminal _ Hwon)). lia.
  - specialize (IH (step cfg op s)). lia.
Qed.

Lemma won_entered_exactly_once (s : GameState) (ops : list Op) :
  status s ≠ WON → status (runOps cfg s ops) = WON →
  wonEntries (trace cfg s ops) = 1%nat.
Proof.
  revert s. induction ops as [|op ops IH]; intros s Hs Hend; [ done | ].
  rewrite wonEntries_cons. change (runOps cfg s (op :: ops))
    with (runOps cfg (step cfg op s) ops) in Hend.
  destruct (decide (status (step cfg op s) = WON)) as [Hwon | Hnot].
  - rewrite bool_decide_eq_true_2 by done.
    by rewrite (terminal_trace_no_entry _ ops (won_terminal _ Hwon)).
  - rewrite bool_decide_eq_false_2 by (intros [? ?]; done).
    by rewrite (IH _ Hnot Hend).
Qed.

(** C4: a resolved action or event option leaves the session WON exactly
    when it leaves the favor at the final rank's ceiling; on a terminal
    session (WON or FAILED) every [resolveAction] call answers
    [SessionTerminated] and no call, nor any sequence of calls, changes
    the state, so no further transition is reachable; and along any sequence of calls the session
    enters WON at most once, exactly once when it ends up WON. *)
Theorem won_once_then_terminated :
  (∀ id now rand s d s',
      resolveAction cfg id now rand s = (Done d, s') → wonAtCeiling s')
  ∧ (∀ id i s d s',
      resolveEventOption cfg id i s = (Done d, s') → wonAtCeiling s')
  ∧ (∀ s, terminal s = true →
          (∀ id now rand,
              resolveAction cfg id now rand s = (Failed SessionTerminated, s))
          ∧ (∀ op, step cfg op s = s)
          ∧ (∀ ops, runOps cfg s ops = s))
  ∧ (∀ s ops,
        (wonEntries (trace cfg s ops) ≤ 1)%nat
        ∧ (status s ≠ WON → status (runOps cfg s ops) = WON →
           wonEntries (trace cfg s ops) = 1%nat)).
Proof.
  split; [ | split; [ | split ] ].
  - intros id now rand s d s'. apply resolveAction_won_iff.
  - intros id i s d s'. apply resolveEventOption_won_iff.
  - intros s H. split; [ | split ].
    + intros id now rand. by apply terminal_resolveAction.
    + intros op. by apply terminal_step.
    + intros ops. by apply terminal_runOps.
  - intros s ops. split.
    + apply won_entered_at_most_once.
    + apply won_entered_exactly_once.
Qed.

(** *** The active-event lock *)

Lemma poll_locked (now : Z) (rand : RandomSource) (s : GameState) :
  is_Some (currentEvent s) → pollForEvent now rand s = (None, s).
Proof.
  intros [e He]. unfold pollForEvent. rewrite He. by destruct (terminal s).
Qed.

Lemma currentEvent_marked (x : GameState) (id : option string) (a : GameAction) (now : Z) :
  currentEvent (set_lastActionId id (markUsed a now x)) = currentEvent x.
Proof. reflexivity. Qed.

Lemma resolveAction_keeps_lock (id : string) (now : Z) (rand : RandomSource)
    (s : GameState) :
  is_Some (currentEvent s) →
  currentEvent (snd (resolveAction cfg id now rand s)) = currentEvent s.
Proof.
  intros Hs.
  destruct (resolveAction cfg id now rand s) as [[d|e] s'] eqn:E; simpl.
  - apply resolveAction_success in E as (a & _ & _ & ->).
    rewrite currentEvent_marked, progress_currentEvent.
    by apply effectsWithTalk_locked.
  - by rewrite (resolveAction_failure _ _ _ _ _ _ E).
Qed.

Lemma step_keeps_lock (op : Op) (s : GameState) :
  is_Some (currentEvent s) → (∀ id i, op ≠ OpEventOption id i) →
  currentEvent (step cfg op s) = currentEvent s.
Proof.
  intros Hs Hop. destruct op as [id now rand | id i | now rand | id | sc]; simpl.
  - by apply resolveAction_keeps_lock.
  - by destruct (Hop id i).
  - by rewrite poll_locked.
  - by destruct (spendSkillPoint_state id s) as [-> | ->].
  - by destruct (changeScene_state sc s) as [-> | ->].
Qed.

Lemma resolveEventOption_unlocks (id : string) (i : nat)
    (s s' : GameState) (d : StateDelta) :
  resolveEventOption cfg id i s = (Done d, s') → currentEvent s' = None.
Proof.
  intros H. by apply resolveEventOption_success in H as (e & o & _ & _ & _ & ->).
Qed.

Lemma resolveEventOption_resolves (s : GameState) (e : RandomEvent)
    (i : nat) (o : EventOption) :
  terminal s = false →
  currentEvent s = Some e →
  options e !! i = Some o →
  resolveEventOption cfg (event_id e) i s
  = commit s (set_currentEvent None (progress cfg (applyOutcome (outcome o) s))).
Proof.
  intros Hterm Hev Hopt. unfold resolveEventOption.
  rewrite Hterm, Hev, Hopt.
  by rewrite (bool_decide_eq_true_2 (event_id e = event_id e)) by reflexivity.
Qed.

Lemma poll_after_release (now : Z) (rand : RandomSource) (s : GameState)
    (e : RandomEvent) :
  terminal s = false →
  currentEvent s = None →
  firstTriggered rand 0 RANDOM_EVENTS = Some e →
  pollForEvent now rand s = (Some e, set_currentEvent (Some e) s).
Proof.
  intros Hterm Hev Hsel. unfold pollForEvent. by rewrite Hterm, Hev, Hsel.
Qed.

Lemma poll_locks (now : Z) (rand : RandomSource) (s s' : GameState) (e : RandomEvent) :
  pollForEvent now rand s = (Some e, s') →
  currentEvent s = None ∧ currentEvent s' = Some e.
Proof.
  unfold pollForEvent. repeat case_match; intros ?; by simplify_eq.
Qed.

(** C6: while an event is active [pollForEvent] answers none, whatever
    the random source, and leaves the state as it was; no call other than
    [resolveEventOption] changes the active event; a resolved event
    option clears it.  (The state holds at most one active event, and a
    poll that surfaces an event finds none active and makes that event
    the active one.)  The lock is released: on a session that is not
    terminal, [resolveEventOption] called with the id of the active event
    and the index of one of its options does resolve, and leaves no event
    active; from then on a poll whose draws select an event surfaces it
    again. *)
Theorem one_active_event :
  (∀ now rand s, is_Some (currentEvent s) → pollForEvent now rand s = (None, s))
  ∧ (∀ op s, is_Some (currentEvent s) → (∀ id i, op ≠ OpEventOption id i) →
             currentEvent (step cfg op s) = currentEvent s)
  ∧ (∀ id i s d s',
        resolveEventOption cfg id i s = (Done d, s') → currentEvent s' = None)
  ∧ (∀ now rand s e s',
        pollForEvent now rand s = (Some e, s') →
        currentEvent s = None ∧ currentEvent s' = Some e)
  ∧ (∀ s e i o,
        terminal s = false → currentEvent s = Some e → options e !! i = Some o →
        ∃ d s', resolveEventOption cfg (event_id e) i s = (Done d, s')
                ∧ currentEvent s' = None
                ∧ step cfg (OpEventOption (event_id e) i) s = s')
  ∧ (∀ now rand s e,
        terminal s = false → currentEvent s = None →
        firstTriggered rand 0 RANDOM_EVENTS = Some e →
        pollForEvent now rand s = (Some e, set_currentEvent (Some e) s)).
Proof.
  split; [ | split; [ | split; [ | split; [ | split ] ] ] ].
  - intros now rand s. apply poll_locked.
  - intros op s. apply step_keeps_lock.
  - intros id i s d s'. apply resolveEventOption_unlocks.
  - intros now rand s e s'. apply poll_locks.
  - intros s e i o Hterm Hev Hopt.
    pose proof (resolveEventOption_resolves s e i o Hterm Hev Hopt) as Hres.
    eexists _, _. split; [ exact Hres | ]. split; [ reflexivity | ].
    cbn [step]. by rewrite Hres.
  - intros now rand s e. apply poll_after_release.
Qed.

(** *** Cooldowns *)

(** C2, counterexample: [failedSession] is a terminal (FAILED) session;
    its action [onboard] is a catalog action, allowed in the current scene
    and still cooling down at time 40001, yet [resolveAction] answers
    [SessionTerminated], not [OnCooldown]. *)
Lemma terminated_session_ignores_cooldown :
  status failedSession = FAILED
  ∧ mkAction "onboard" PLEASE None 0 10000 (Some HR) ∈ HR_ACTIONS
  ∧ findAction "onboard"
    = Some (mkAction "onboard" PLEASE None 0 10000 (Some HR))
  ∧ sceneAllowed (mkAction "onboard" PLEASE None 0 10000 (Some HR)) failedSession = true
  ∧ cooldownRemaining (mkAction "onboard" PLEASE None 0 10000 (Some HR)) 40001 failedSession
    = 9999
  ∧ isReady (mkAction "onboard" PLEASE None 0 10000 (Some HR)) 40001 failedSession = false
  ∧ resolveAction defaultTuning "onboard" 40001 steadyRand failedSession
    = (Failed SessionTerminated, failedSession).
Proof.
  repeat apply conj; try (vm_compute; reflexivity).
  unfold HR_ACTIONS. apply list_elem_of_here.
Qed.

(** C2, as amended: on a session that is not terminal, for every action
    of the catalog that is allowed in the current scene, [resolveAction]
    during the action's cooldown answers [OnCooldown] and leaves the
    session state unchanged. *)
Theorem cooldown_rejects_unchanged (now : Z) (rand : RandomSource)
    (s : GameState) (a : GameAction) :
  terminal s = false →
  inCatalog a →
  sceneAllowed a s = true →
  isReady a now s = false →
  resolveAction cfg (action_id a) now rand s = (Failed OnCooldown, s).
Proof.
  intros Hterm Hcat Hscene Hcd. unfold resolveAction.
  by rewrite Hterm, (findAction_of_catalog a Hcat), Hscene, Hcd.
Qed.

(** *** The GRINDER scenario *)







End EngineProperties.

(** The failed session of above is reachable, hence within bounds. *)
Lemma meters_within_bounds_witness :
  reachable defaultTuning failedSession ∧ inBounds failedSession.
Proof.
  assert (H : reachable defaultTuning failedSession).
  { unfold failedSession, runOps. cbn [foldl].
    repeat apply reach_step. apply reach_init. }
  split; [ exact H | ].
  exact (proj2 (proj2 (meters_within_bounds defaultTuning)) failedSession H).
Defined.

(** The director's session is WON after the IPO and refuses what follows. *)
Lemma won_once_then_terminated_witness :
  terminal wonSession = true
  ∧ resolveAction defaultTuning "ipo" 20000 steadyRand wonSession
    = (Failed SessionTerminated, wonSession).
Proof.
  assert (H : terminal wonSession = true) by (vm_compute; reflexivity).
  split; [ exact H | ].
  exact (proj1 (proj1 (proj2 (proj2 (won_once_then_terminated defaultTuning))) wonSession H)
           "ipo" 20000 steadyRand).
Defined.

(** On the session with the first event of the catalog pending, a poll
    answers none; resolving option 0 of that event succeeds and leaves no
    event active. *)
Lemma one_active_event_witness :
  is_Some (currentEvent eventPending)
  ∧ pollForEvent 1 (λ _, 0%float) eventPending = (None, eventPending)
  ∧ ∃ d s', resolveEventOption defaultTuning "evt_boss_secret" 0 eventPending
            = (Done d, s')
            ∧ currentEvent s' = None
            ∧ step defaultTuning (OpEventOption "evt_boss_secret" 0) eventPending = s'.
Proof.
  assert (H : is_Some (currentEvent eventPending)) by (vm_compute; eauto).
  split; [ exact H | ].
  split; [ exact (proj1 (one_active_event defaultTuning) 1 (λ _, 0%float) eventPending H) | ].
  edestruct (proj1 (proj2 (proj2 (proj2 (proj2 (one_active_event defaultTuning)))))
               eventPending) as (d & s' & Hres & Hnone & Hstep).
  - vm_compute; reflexivity.
  - vm_compute; reflexivity.
  - instantiate (2 := 0%nat). reflexivity.
  - exists d, s'. split; [ exact Hres | ]. split; [ exact Hnone | exact Hstep ].
Defined.

(** A session that worked hard at time 0 asks again at time 999. *)
Lemma cooldown_rejects_unchanged_witness :
  terminal busySession = false
  ∧ inCatalog workHard
  ∧ sceneAllowed workHard busySession = true
  ∧ isReady workHard 999 busySession = false
  ∧ resolveAction defaultTuning "work_hard" 999 steadyRand busySession
    = (Failed OnCooldown, busySession).
Proof.
  assert (H1 : terminal busySession = false) by (vm_compute; reflexivity).
  assert (H2 : inCatalog workHard).
  { right; left. unfold WORK_ACTIONS, workHard. apply list_elem_of_here. }
  assert (H3 : sceneAllowed workHard busySession = true) by (vm_compute; reflexivity).
  assert (H4 : isReady workHard 999 busySession = false) by (vm_compute; reflexivity).
  split; [ exact H1 | ]. split; [ exact H2 | ].
  split; [ exact H3 | ]. split; [ exact H4 | ].
  exact (cooldown_rejects_unchanged defaultTuning 999 steadyRand busySession workHard
           H1 H2 H3 H4).
Defined.

(* ===================================================================== *)
(** ** The scenarios of the specification, run on the model *)
(* ===================================================================== *)

(** Rank INTERN, favor 95 of 100, an action worth +10 favor: the favor
    clamps to 100, the promotion fires, the rank becomes JUNIOR and the
    favor restarts at 0. *)
Example intern_promotion_scenario :
  value <$> findAction "tea" = Some 10
  ∧ favor internNearPromotion = 95
  ∧ profession (step defaultTuning (OpAction "tea" 0 steadyRand) internNearPromotion)
    = JUNIOR
  ∧ favor (step defaultTuning (OpAction "tea" 0 steadyRand) internNearPromotion) = 0
  ∧ status (step defaultTuning (OpAction "tea" 0 steadyRand) internNearPromotion)
    = RUNNING.
Proof. repeat apply conj; vm_compute; reflexivity. Qed.

(** Rage 190 of 200, no rescue, a PLEASE action adding 20 rage: the rage
    clamps to 200, the session fails, and the next action is refused. *)
Example rage_failure_scenario :
  rageCeiling nearRageCeiling = 200
  ∧ rage (step defaultTuning (OpAction "help" 0 steadyRand) nearRageCeiling) = 200
  ∧ status (step defaultTuning (OpAction "help" 0 steadyRand) nearRageCeiling) = FAILED
  ∧ fst (resolveAction defaultTuning "work_hard" 5000 steadyRand
           (step defaultTuning (OpAction "help" 0 steadyRand) nearRageCeiling))
    = Failed SessionTerminated.
Proof. repeat apply conj; vm_compute; reflexivity. Qed.

(** A random source fixed at 0.10 surfaces the event whose trigger chance
    is 0.15; fixed at 0.20 it surfaces none. *)
Example poll_threshold_scenario :
  event_id <$> fst (pollForEvent 0 (λ _, 0.10%float) (selectOrigin defaultTuning HEIR))
  = Some "evt_boss_secret"
  ∧ fst (pollForEvent 0 (λ _, 0.20%float) (selectOrigin defaultTuning HEIR)) = None.
Proof. repeat apply conj; vm_compute; reflexivity. Qed.

(** A director 400 favor short of the final ceiling who rings the IPO bell
    (+500): the favor clamps to 9999, the run is WON, and the next action
    is refused. *)
Example director_win_scenario :
  favor (step defaultTuning (OpAction "ipo" 0 steadyRand) directorNearWin) = 9999
  ∧ status (step defaultTuning (OpAction "ipo" 0 steadyRand) directorNearWin) = WON
  ∧ fst (resolveAction defaultTuning "ipo" 20000 steadyRand
           (step defaultTuning (OpAction "ipo" 0 steadyRand) directorNearWin))
    = Failed SessionTerminated
  ∧ wonEntries (trace defaultTuning directorNearWin
                  [ OpAction "ipo" 0 steadyRand; OpAction "ipo" 20000 steadyRand ])
    = 1%nat.
Proof. repeat apply conj; vm_compute; reflexivity. Qed.

(* ===================================================================== *)
(** ** Further properties of the catalog *)
(* ===================================================================== *)

Lemma scene_actions_in_ALL_ACTIONS (job : Profession) (scene : SceneType) (a : GameAction) :
  a ∈ GET_SCENE_ACTIONS job scene → a ∈ ALL_ACTIONS.
Proof.
  intros H. apply inCatalog_ALL_ACTIONS. unfold inCatalog.
  destruct scene; unfold GET_SCENE_ACTIONS in H; simpl in H.
  - apply elem_of_app in H as [H | H]; [ right; right; right; by exists job | by left ].
  - by right; right; left.
  - by right; left.
Qed.

(** X1: no two action objects of the catalog share an id, so the React
    keys [action.id] of every context menu are pairwise distinct. *)
Theorem action_ids_unique :
  NoDup (action_id <$> ALL_ACTIONS)
  ∧ ∀ job scene, NoDup (btn_key <$> contextMenuButtons job scene).
Proof.
  split.
  - apply (bool_decide_unpack _). vm_compute. exact I.
  - intros job scene. apply (bool_decide_unpack _).
    destruct job, scene; vm_compute; exact I.
Qed.

(** X2: the tables keyed by an enumeration or a role agree with their
    entries: [JOBS[p].id] is [p], [ORIGINS[o].id] is [o], the entry under
    an [NPCS] key has that key as its role; event ids and NPC ids are
    pairwise distinct. *)
Theorem table_keys_match_entries :
  (∀ p, job_id (JOBS p) = p)
  ∧ (∀ o, origin_id (ORIGINS o) = o)
  ∧ (∀ k c, NPCS !! k = Some c → npc_role c = k)
  ∧ NoDup (event_id <$> RANDOM_EVENTS)
  ∧ NoDup (npc_id ∘ snd <$> map_to_list NPCS).
Proof.
  split; [ by intros [] | ].
  split; [ by intros [] | ].
  split; [ exact NPCS_keys_are_roles | ].
  split; apply (bool_decide_unpack _); vm_compute; exact I.
Qed.

Lemma link_cost_and_level :
  Forall (λ k, ∀ r, reqId k = Some r →
                    ∃ t, skillById r = Some t
                         ∧ skill_cost t < skill_cost k
                         ∧ (maxLevel k < maxLevel t)%nat) SKILLS.
Proof.
  each_entry ltac:(intros r Hr; simpl in Hr;
                   first [ discriminate Hr
                         | injection Hr as <-; eexists;
                           split; [ reflexivity | unfold mkSkill; simpl; lia ] ]).
Qed.

Lemma skillById_of_member (t : SkillConfig) :
  t ∈ SKILLS → skillById (skill_id t) = Some t.
Proof.
  intros H. unfold SKILLS in H.
  repeat (apply elem_of_cons in H as [-> | H]; [ reflexivity | ]).
  by apply elem_of_nil in H.
Qed.

Lemma requires_cost_and_level (k t : SkillConfig) :
  requires k t → skill_cost t < skill_cost k ∧ (maxLevel k < maxLevel t)%nat.
Proof.
  intros (Hk & Ht & Hreq).
  pose proof link_cost_and_level as H. rewrite Forall_forall in H.
  destruct (H k Hk _ Hreq) as (t' & Hfind & Hc & Hl).
  rewrite (skillById_of_member t Ht) in Hfind. by injection Hfind as <-.
Qed.

(** X3: along the prerequisite links of [SKILLS], however many are
    followed, the required skill is always the cheaper one with the higher
    maximum level. *)
Theorem deeper_skills_cost_more (k t : SkillConfig) :
  tc requires k t → skill_cost t < skill_cost k ∧ (maxLevel k < maxLevel t)%nat.
Proof.
  induction 1 as [k t H | k m t H _ IH].
  - by apply requires_cost_and_level.
  - apply requires_cost_and_level in H. lia.
Qed.

Lemma deeper_skills_cost_more_witness :
  tc requires (mkSkill "eff_auto" EFFICIENCY 5 1 (Some "eff_coffee"))
     (mkSkill "eff_typing" EFFICIENCY 1 5 None)
  ∧ 1 < 5 ∧ (1 < 5)%nat.
Proof.
  assert (H : tc requires (mkSkill "eff_auto" EFFICIENCY 5 1 (Some "eff_coffee"))
                (mkSkill "eff_typing" EFFICIENCY 1 5 None)).
  { apply tc_l with (mkSkill "eff_coffee" EFFICIENCY 2 3 (Some "eff_typing")).
    - split; [ | split; [ | reflexivity ] ]; unfold SKILLS;
        repeat first [ apply list_elem_of_here | apply list_elem_of_further ].
    - apply tc_once. split; [ | split; [ | reflexivity ] ]; unfold SKILLS;
        repeat first [ apply list_elem_of_here | apply list_elem_of_further ]. }
  split; [ exact H | ].
  exact (deeper_skills_cost_more _ _ H).
Defined.

(** X4: the favor ceilings strictly increase along the ranks in table
    order; every rank-specific action targets the boss's office, is a
    PLEASE or a REBEL action, and has a value that is positive and below
    the rank's ceiling; every rank has at least one action of each of the
    two kinds. *)
Theorem rank_ladder_well_formed :
  StronglySorted Z.lt ((λ p, maxFavor (JOBS p)) <$> RANKS)
  ∧ (∀ p, p ∈ RANKS)
  ∧ (∀ p, Forall (λ a, targetScene a = Some BOSS_OFFICE
                       ∧ (action_type a = PLEASE ∨ action_type a = REBEL)
                       ∧ 0 < value a < maxFavor (JOBS p)) (actions (JOBS p)))
  ∧ (∀ p, Exists (λ a, action_type a = PLEASE) (actions (JOBS p))
          ∧ Exists (λ a, action_type a = REBEL) (actions (JOBS p))).
Proof.
  split.
  { unfold RANKS. cbn [fmap list_fmap JOBS maxFavor].
    repeat (apply SSorted_cons; [ | repeat constructor; lia ]). apply SSorted_nil. }
  split; [ intros []; unfold RANKS; set_solver | ].
  split.
  - intros []; each_entry ltac:(split; [ reflexivity | split; [ auto | simpl; lia ] ]).
  - intros []; split; apply (bool_decide_unpack _); vm_compute; exact I.
Qed.

(* ===================================================================== *)
(** ** Properties of the action animation *)
(* ===================================================================== *)

Lemma append_empty_l (s : string) : "" +:+ s = s.
Proof. reflexivity. Qed.

Lemma append_cons (c : Ascii.ascii) (s t : string) :
  String c s +:+ t = String c (s +:+ t).
Proof. reflexivity. Qed.

Lemma prefix_app (sub post : string) : String.prefix sub (sub +:+ post) = true.
Proof.
  induction sub as [|c sub IH]; [ by destruct post | ].
  simpl. by destruct (Ascii.ascii_dec c c).
Qed.

Lemma prefix_inv (sub s : string) :
  String.prefix sub s = true → ∃ post, s = sub +:+ post.
Proof.
  revert s. induction sub as [|c sub IH]; intros s H.
  - by exists s.
  - destruct s as [|d s]; [ discriminate H | ]. simpl in H.
    destruct (Ascii.ascii_dec c d) as [->|]; [ | discriminate H ].
    destruct (IH s H) as [post ->]. by exists post.
Qed.

Lemma includes_prefix (s sub : string) :
  String.prefix sub s = true → includes s sub = true.
Proof. intros H. destruct s; cbn [includes]; by rewrite H. Qed.

Lemma includes_app (pre sub post : string) :
  includes (pre +:+ sub +:+ post) sub = true.
Proof.
  induction pre as [|c pre IH].
  - rewrite append_empty_l. apply includes_prefix, prefix_app.
  - rewrite append_cons. cbn [includes]. rewrite IH. apply orb_true_r.
Qed.

Lemma includes_inv (s sub : string) :
  includes s sub = true → ∃ pre post, s = pre +:+ sub +:+ post.
Proof.
  induction s as [|c s IH]; cbn [includes]; intros H.
  - rewrite orb_false_r in H. apply prefix_inv in H as [post ->]. by exists "", post.
  - apply orb_true_iff in H as [H | H].
    + apply prefix_inv in H as [post ->]. by exists "", post.
    + destruct (IH H) as (pre & post & ->). by exists (String c pre), post.
Qed.

(** [includes] is the substring test. *)
Lemma includes_spec (s sub : string) :
  includes s sub = true ↔ ∃ pre post, s = pre +:+ sub +:+ post.
Proof.
  split; [ apply includes_inv | ].
  intros (pre & post & ->). apply includes_app.
Qed.

Lemma someIncluded_app (words : list string) (w pre post : string) :
  w ∈ words → someIncluded words (pre +:+ w +:+ post) = true.
Proof.
  intros Hw. unfold someIncluded. apply existsb_exists.
  exists w. split; [ by apply list_elem_of_In | apply includes_app ].
Qed.

Lemma app_word_nonempty (w pre post : string) :
  w ≠ "" → pre +:+ w +:+ post ≠ "".
Proof.
  intros Hw H. destruct pre; [ | discriminate H ].
  destruct w; [ done | discriminate H ].
Qed.

(** X5: an action id in which one of the attack words (punch, kick,
    combo, scold, slap, argue_hr) occurs anywhere is animated as an attack,
    whatever else the id contains and whatever the animation state was:
    the NPC is in pain and shakes, the player looks angry, and the pose is
    the kick exactly when the id contains "kick". *)
Theorem attack_words_take_priority (w pre post : string) (st : AnimState) :
  w ∈ ["punch"; "kick"; "combo"; "scold"; "slap"; "argue_hr"] →
  npcEmotion (animateAction (Some (pre +:+ w +:+ post)) st) = PAIN
  ∧ npcShake (animateAction (Some (pre +:+ w +:+ post)) st) = true
  ∧ playerEmotion (animateAction (Some (pre +:+ w +:+ post)) st) = ANGRY
  ∧ (playerAction (animateAction (Some (pre +:+ w +:+ post)) st) = "kick"
     ↔ ∃ pre' post', pre +:+ w +:+ post = pre' +:+ "kick" +:+ post').
Proof.
  intros Hw. unfold animateAction.
  rewrite bool_decide_eq_false_2.
  2: { apply app_word_nonempty. intros ->.
       repeat (apply elem_of_cons in Hw as [Hw | Hw]; [ discriminate Hw | ]).
       by apply elem_of_nil in Hw. }
  rewrite (someIncluded_app _ w pre post Hw).
  rewrite <- includes_spec.
  destruct (includes (pre +:+ w +:+ post) "kick"); simpl; repeat split; done.
Qed.

Lemma attack_words_take_priority_witness :
  "slap" ∈ ["punch"; "kick"; "combo"; "scold"; "slap"; "argue_hr"]
  ∧ npcEmotion (animateAction (Some "tea_slap") restAnim) = PAIN
  ∧ npcShake (animateAction (Some "tea_slap") restAnim) = true.
Proof.
  assert (H : "slap" ∈ ["punch"; "kick"; "combo"; "scold"; "slap"; "argue_hr"])
    by (repeat first [ apply list_elem_of_here | apply list_elem_of_further ]).
  split; [ exact H | ].
  pose proof (attack_words_take_priority "slap" "tea_" "" restAnim H) as (H1 & H2 & _).
  split; [ exact H1 | exact H2 ].
Defined.

(** X6: a null or empty [lastActionId] changes nothing; any other id
    starts an animation, so the player's pose is one of punch, kick, tea,
    rebel, type, work and never idle; and the NPC shakes afterwards only
    if it is now in pain or was shaking before. *)
Theorem animation_starts_unless_empty (lastActionId : option string) (st : AnimState) :
  (truthyString lastActionId = false → animateAction lastActionId st = st)
  ∧ (truthyString lastActionId = true →
     playerAction (animateAction lastActionId st)
     ∈ ["punch"; "kick"; "tea"; "rebel"; "type"; "work"])
  ∧ (npcShake (animateAction lastActionId st) = true →
     npcEmotion (animateAction lastActionId st) = PAIN ∨ npcShake st = true).
Proof.
  unfold truthyString, animateAction.
  destruct lastActionId as [id|]; [ | by repeat split; auto ].
  case_bool_decide; simpl; [ by repeat split; auto | ].
  repeat case_match; simpl; repeat split; intros; try done; auto; set_solver.
Qed.

Lemma animation_by_type :
  Forall (λ a, ∀ st,
            (action_type a = VIOLENCE
             ↔ playerEmotion (animateAction (Some (action_id a)) st) = ANGRY)
            ∧ (action_type a = VIOLENCE
               ↔ npcEmotion (animateAction (Some (action_id a)) restAnim) = PAIN)
            ∧ (action_type a ≠ VIOLENCE →
               npcShake (animateAction (Some (action_id a)) st) = npcShake st))
    ALL_ACTIONS.
Proof.
  unfold ALL_ACTIONS, RANKS. cbn [map concat app COMMON_VIOLENCE WORK_ACTIONS HR_ACTIONS
                                   JOBS actions].
  each_entry ltac:(intros st; vm_compute; repeat split; intros; congruence).
Qed.

(** X7: for every action of the catalog, the attack animation is played
    exactly when the action's type is VIOLENCE: the player looks angry and,
    from rest, the NPC is in pain exactly for VIOLENCE actions, and no
    other action changes whether the NPC shakes. *)
Theorem attack_animation_iff_violence (a : GameAction) (st : AnimState) :
  inCatalog a →
  (action_type a = VIOLENCE
   ↔ playerEmotion (animateAction (Some (action_id a)) st) = ANGRY)
  ∧ (action_type a = VIOLENCE
     ↔ npcEmotion (animateAction (Some (action_id a)) restAnim) = PAIN)
  ∧ (action_type a ≠ VIOLENCE →
     npcShake (animateAction (Some (action_id a)) st) = npcShake st).
Proof.
  intros Ha. apply inCatalog_ALL_ACTIONS in Ha.
  pose proof animation_by_type as H. rewrite Forall_forall in H.
  exact (H a Ha st).
Qed.

Lemma attack_animation_iff_violence_witness :
  inCatalog (mkAction "argue_hr" VIOLENCE (Some 50) 50 2000 (Some HR))
  ∧ npcEmotion (animateAction (Some "argue_hr") restAnim) = PAIN.
Proof.
  assert (H : inCatalog (mkAction "argue_hr" VIOLENCE (Some 50) 50 2000 (Some HR))).
  { right; right; left. unfold HR_ACTIONS.
    repeat first [ apply list_elem_of_here | apply list_elem_of_further ]. }
  split; [ exact H | ].
  exact (proj1 (proj1 (proj2 (attack_animation_iff_violence _ restAnim H))) eq_refl).
Defined.

Lemma soft_animations_by_type :
  Forall (λ a,
            (npcEmotion (animateAction (Some (action_id a)) restAnim) = HAPPY →
             action_type a = PLEASE ∨ action_id a = "teach")
            ∧ (npcEmotion (animateAction (Some (action_id a)) restAnim) = ANGRY →
               action_type a = REBEL))
    ALL_ACTIONS.
Proof.
  unfold ALL_ACTIONS, RANKS. cbn [map concat app COMMON_VIOLENCE WORK_ACTIONS HR_ACTIONS
                                   JOBS actions].
  each_entry ltac:(vm_compute; split; intros; first [ congruence | auto ]).
Qed.

(** X8: the pleasing animation is chosen by substring, not by type: the
    REBEL action [teach] of the SENIOR rank contains "tea" and is played
    as a pleasing action with a happy NPC.  It is the only catalog action
    so misplaced: every other action that makes the NPC happy is a PLEASE
    action, and every action that makes the NPC angry is a REBEL action. *)
Theorem teach_is_played_as_pleasing :
  mkAction "teach" REBEL None 35 3000 (Some BOSS_OFFICE) ∈ actions (JOBS SENIOR)
  ∧ animateAction (Some "teach") restAnim
    = {| playerAction := "tea"; npcEmotion := HAPPY; npcShake := false |}
  ∧ (∀ a, inCatalog a →
          (npcEmotion (animateAction (Some (action_id a)) restAnim) = HAPPY →
           action_type a = PLEASE ∨ action_id a = "teach")
          ∧ (npcEmotion (animateAction (Some (action_id a)) restAnim) = ANGRY →
             action_type a = REBEL)).
Proof.
  split; [ cbn [JOBS actions];
           repeat first [ apply list_elem_of_here | apply list_elem_of_further ] | ].
  split; [ vm_compute; reflexivity | ].
  intros a Ha. apply inCatalog_ALL_ACTIONS in Ha.
  pose proof soft_animations_by_type as H. rewrite Forall_forall in H.
  exact (H a Ha).
Qed.

(* ===================================================================== *)
(** ** Properties of the displayed emotion and of dragging *)
(* ===================================================================== *)

(** X9: [getDisplayEmotion] shows a running animation's emotion before
    anything else; with none running it shows KO, HAPPY or SHOCK only in
    the boss's office, SUSPICIOUS exactly in the HR scene while resigning,
    and NEUTRAL at the workstation; in the boss's office a boss health
    below 200 shows KO whatever favor and rage are; it never produces PAIN
    or ANGRY by itself. *)
Theorem display_emotion_gating (npcEmo : Emotion) (g : SceneReads) :
  (npcEmo ≠ NEUTRAL → getDisplayEmotion npcEmo g = npcEmo)
  ∧ (getDisplayEmotion NEUTRAL g ∈ [KO; HAPPY; SHOCK] → rd_currentScene g = BOSS_OFFICE)
  ∧ (getDisplayEmotion NEUTRAL g = SUSPICIOUS
     ↔ rd_currentScene g = HR ∧ rd_isResigning g = true)
  ∧ (rd_currentScene g = WORKSTATION → getDisplayEmotion NEUTRAL g = NEUTRAL)
  ∧ (rd_currentScene g = BOSS_OFFICE → PrimFloat.ltb (rd_bossHealth g) 200 = true →
     getDisplayEmotion NEUTRAL g = KO)
  ∧ getDisplayEmotion NEUTRAL g ∉ [PAIN; ANGRY].
Proof.
  unfold getDisplayEmotion.
  split.
  { intros H. by rewrite bool_decide_eq_true_2. }
  rewrite (bool_decide_eq_false_2 (NEUTRAL ≠ NEUTRAL)) by (intros H; by apply H).
  destruct (rd_currentScene g); simpl;
    destruct (PrimFloat.ltb (rd_bossHealth g) 200);
    destruct (PrimFloat.ltb (PrimFloat.mul (rd_maxFavor g) 0.8) (rd_favor g));
    destruct (PrimFloat.ltb 200 (rd_rage g));
    destruct (rd_isResigning g); simpl;
    repeat split; intros; try done; try tauto;
    try (intros Hin; repeat (apply elem_of_cons in Hin as [Hin | Hin];
                             [ discriminate Hin | ]); by apply elem_of_nil in Hin);
    try (match goal with
         | H : _ ∈ _ |- _ =>
             repeat (apply elem_of_cons in H as [H | H]; [ discriminate H | ]);
             by apply elem_of_nil in H
         | H : _ ∧ _ |- _ => destruct H; discriminate
         end).
Qed.

Lemma lastMove_cons (p m : Point) (moves : list Point) :
  lastMove p (m :: moves) = lastMove m moves.
Proof. reflexivity. Qed.

Lemma playerMoves_idle (moves : list Point) (st : PlayerDrag) :
  isDragging st = false → playerMoves moves st = st.
Proof.
  intros H. induction moves as [|m moves IH]; [ done | ].
  unfold playerMoves in *. cbn [foldl]. unfold handleMouseMove at 2.
  rewrite H. exact IH.
Qed.

Lemma playerMoves_dragging (moves : list Point) (st : PlayerDrag) :
  isDragging st = true →
  pt_x (playerPos (playerMoves moves st))
  = pt_x (playerPos st) + (pt_x (lastMove (dragStart st) moves) - pt_x (dragStart st))
  ∧ pt_y (playerPos (playerMoves moves st))
    = pt_y (playerPos st) - (pt_y (lastMove (dragStart st) moves) - pt_y (dragStart st))
  ∧ dragStart (playerMoves moves st) = lastMove (dragStart st) moves
  ∧ isDragging (playerMoves moves st) = true
  ∧ contextMenu (playerMoves moves st) = contextMenu st.
Proof.
  revert st. induction moves as [|m moves IH]; intros st H.
  - unfold playerMoves, lastMove. simpl. repeat split; first [ lia | assumption ].
  - change (playerMoves (m :: moves) st)
      with (playerMoves moves (handleMouseMove (pt_x m) (pt_y m) st)).
    rewrite lastMove_cons.
    assert (Hm : handleMouseMove (pt_x m) (pt_y m) st
                 = {| playerPos := {| pt_x := pt_x (playerPos st) + (pt_x m - pt_x (dragStart st));
                                      pt_y := pt_y (playerPos st) - (pt_y m - pt_y (dragStart st)) |};
                      isDragging := true;
                      dragStart := {| pt_x := pt_x m; pt_y := pt_y m |};
                      contextMenu := contextMenu st |}).
    { unfold handleMouseMove. by rewrite H. }
    rewrite Hm. clear Hm.
    match goal with |- context [playerMoves moves ?s] =>
      destruct (IH s eq_refl) as (Hx & Hy & Hd & Hg & Hc) end.
    rewrite Hx, Hy, Hd, Hg, Hc. cbn [playerPos dragStart pt_x pt_y contextMenu].
    assert (Heta : {| pt_x := pt_x m; pt_y := pt_y m |} = m) by by destruct m.
    rewrite Heta. repeat split; lia.
Qed.

(** X10: dragging the player: after a press of the left button away from
    the workstation at (x, y) and any run of pointer moves, the player has
    moved by the net displacement of the pointer, horizontally with it and
    vertically against it (the position counts from the bottom), whatever
    path the pointer took.  A press of another button, or any press at the
    workstation, starts nothing, and after the release moves do nothing. *)
Theorem player_drag_follows_pointer (isWorkstation : bool) (button x y : Z)
    (moves : list Point) (st : PlayerDrag) :
  (button = 0 → isWorkstation = false →
   pt_x (playerPos (playerMoves moves (handleMouseDown isWorkstation button x y st)))
   = pt_x (playerPos st) + (pt_x (lastMove {| pt_x := x; pt_y := y |} moves) - x)
   ∧ pt_y (playerPos (playerMoves moves (handleMouseDown isWorkstation button x y st)))
     = pt_y (playerPos st) - (pt_y (lastMove {| pt_x := x; pt_y := y |} moves) - y))
  ∧ (isDragging st = false → button ≠ 0 ∨ isWorkstation = true →
     playerMoves moves (handleMouseDown isWorkstation button x y st) = st)
  ∧ playerMoves moves (handleMouseUp st) = handleMouseUp st.
Proof.
  split; [ | split ].
  - intros -> ->. unfold handleMouseDown.
    rewrite bool_decide_eq_false_2 by (intros H; by apply H).
    match goal with |- context [playerMoves moves ?s] =>
      destruct (playerMoves_dragging moves s eq_refl) as (Hx & Hy & _) end.
    rewrite Hx, Hy. done.
  - intros Hidle Hno. unfold handleMouseDown.
    destruct Hno as [Hb | ->].
    + rewrite bool_decide_eq_true_2 by done. by apply playerMoves_idle.
    + case_bool_decide; by apply playerMoves_idle.
  - by apply playerMoves_idle.
Qed.

Lemma itemMoves_idle (moves : list Point) (st : ItemDrag) :
  itemDragging st = false → itemMoves moves st = st.
Proof.
  intros H. induction moves as [|m moves IH]; [ done | ].
  unfold itemMoves in *. cbn [foldl]. unfold itemMouseMove at 2.
  rewrite H. exact IH.
Qed.

Lemma itemMoves_dragging (moves : list Point) (st : ItemDrag) :
  itemDragging st = true →
  itemDragStart (itemMoves moves st) = itemDragStart st
  ∧ itemDragging (itemMoves moves st) = true
  ∧ ∀ p, pt_x p = pt_x (offset st) + pt_x (itemDragStart st) →
         pt_y p = pt_y (offset st) + pt_y (itemDragStart st) →
         pt_x (offset (itemMoves moves st)) = pt_x (lastMove p moves) - pt_x (itemDragStart st)
         ∧ pt_y (offset (itemMoves moves st)) = pt_y (lastMove p moves) - pt_y (itemDragStart st).
Proof.
  revert st. induction moves as [|m moves IH]; intros st H.
  - unfold itemMoves, lastMove. simpl. repeat split; first [ lia | assumption ].
  - change (itemMoves (m :: moves) st)
      with (itemMoves moves (itemMouseMove (pt_x m) (pt_y m) st)).
    assert (Hm : itemMouseMove (pt_x m) (pt_y m) st
                 = {| offset := {| pt_x := pt_x m - pt_x (itemDragStart st);
                                   pt_y := pt_y m - pt_y (itemDragStart st) |};
                      itemDragging := true; itemDragStart := itemDragStart st |}).
    { unfold itemMouseMove. by rewrite H. }
    rewrite Hm. clear Hm.
    match goal with |- context [itemMoves moves ?s] =>
      destruct (IH s eq_refl) as (Hd & Hg & Ho) end.
    rewrite Hd, Hg. cbn [itemDragStart].
    split; [ reflexivity | ]. split; [ reflexivity | ].
    intros p _ _. rewrite lastMove_cons.
    destruct (Ho m) as [Hx Hy]; cbn [offset itemDragStart pt_x pt_y]; try lia.
    cbn [offset itemDragStart pt_x pt_y] in Hx, Hy. by split.
Qed.

(** X11: dragging a desk item: a whole gesture (press at [p], any run of
    moves, release) shifts the item's offset by exactly the pointer's net
    displacement, whatever path the pointer took and wherever the item
    was; afterwards the item is released and further moves do nothing. *)
Theorem item_gesture_adds_displacement (p : Point) (moves : list Point) (st : ItemDrag) :
  pt_x (offset (itemGesture p moves st))
  = pt_x (offset st) + (pt_x (lastMove p moves) - pt_x p)
  ∧ pt_y (offset (itemGesture p moves st))
    = pt_y (offset st) + (pt_y (lastMove p moves) - pt_y p)
  ∧ itemDragging (itemGesture p moves st) = false
  ∧ ∀ later, itemMoves later (itemGesture p moves st) = itemGesture p moves st.
Proof.
  unfold itemGesture.
  destruct (itemMoves_dragging moves (itemMouseDown (pt_x p) (pt_y p) st) eq_refl)
    as (_ & _ & Ho).
  destruct (Ho p) as [Hx Hy]; [ simpl; lia | simpl; lia | ].
  cbn [itemMouseUp offset itemDragging].
  cbn [itemMouseDown itemDragStart pt_x pt_y] in Hx, Hy.
  repeat split; [ lia | lia | ].
  intros later. by apply itemMoves_idle.
Qed.

(* ===================================================================== *)
(** ** Properties of the outcome preview, the context menu and the click *)
(* ===================================================================== *)

Lemma guarded_sign (d1 d2 : option Z) (f : bool → JsxChild) :
  deltaSign d1 = deltaSign d2 →
  guarded d1 (λ n, f (bool_decide (0 < n))) = guarded d2 (λ n, f (bool_decide (0 < n))).
Proof.
  unfold deltaSign, guarded.
  destruct d1 as [n1|], d2 as [n2|]; simpl; intros H; try done.
  injection H as H.
  destruct (decide (n1 = 0)) as [-> | H1].
  - assert (n2 = 0) as -> by lia. done.
  - assert (n2 ≠ 0) by lia.
    rewrite (bool_decide_eq_false_2 (n1 = 0)), (bool_decide_eq_false_2 (n2 = 0)) by done.
    f_equal. apply bool_decide_ext. lia.
Qed.

(** X12: the outcome preview of an event option shows signs only: two
    outcomes whose money, favor and rage deltas have the same signs (or
    are absent alike) get the same preview, whatever the amounts, the
    skill points and the feedback text are. *)
Theorem preview_shows_signs_only (o1 o2 : EventOutcome) :
  deltaSign (out_money o1) = deltaSign (out_money o2) →
  deltaSign (out_favor o1) = deltaSign (out_favor o2) →
  deltaSign (out_rage o1) = deltaSign (out_rage o2) →
  outcomePreview o1 = outcomePreview o2.
Proof.
  intros Hm Hf Hr. unfold outcomePreview, moneyHint, favorHint, rageHint.
  f_equal; [ | f_equal; [ | f_equal ] ].
  - exact (guarded_sign _ _
             (λ b, SpanChild (if b then "text-green-600" else "text-red-500")
                     ((if b then "+" else "") +:+ "$")) Hm).
  - exact (guarded_sign _ _
             (λ b, SpanChild (if b then "text-yellow-600" else "text-slate-500")
                     ((if b then "+" else "-") +:+ "Favor")) Hf).
  - exact (guarded_sign _ _
             (λ b, SpanChild (if b then "text-red-600" else "text-green-500")
                     ((if b then "+" else "-") +:+ "Rage")) Hr).
Qed.

(** The deltas of the first options of [evt_boss_secret] and [evt_blame]:
    different amounts, one preview. *)
Lemma preview_shows_signs_only_witness :
  outcomePreview (mkOutcome None (Some 10) (Some (-20)) (Some 2) "a")
  = outcomePreview (mkOutcome None (Some 30) (Some (-20)) (Some 1) "b").
Proof.
  exact (preview_shows_signs_only
           (mkOutcome None (Some 10) (Some (-20)) (Some 2) "a")
           (mkOutcome None (Some 30) (Some (-20)) (Some 1) "b")
           eq_refl eq_refl eq_refl).
Defined.

Lemma guarded_number (d : option Z) (f : Z → JsxChild) (n : Z) :
  (∀ m, f m ≠ NumberChild n) →
  guarded d f = NumberChild n ↔ n = 0 ∧ d = Some 0.
Proof.
  intros Hf. unfold guarded. destruct d as [m|]; [ | split; [ done | by intros [_ ?] ] ].
  case_bool_decide as Hm.
  - subst m. split; [ intros H; by injection H as <- | by intros [-> _] ].
  - split; [ intros H; by destruct (Hf m) | intros [_ H]; by injection H ].
Qed.

(** X13: a delta that is present and 0 is not hidden by the [&&] guard
    of the preview: the expression evaluates to the number 0 itself.  A
    bare number in a preview is always 0 and stands for such a delta, and
    in the catalog this happens for exactly one option, the first one of
    [evt_offer] (money: 0). *)
Theorem zero_delta_previews_as_number :
  (∀ o n, NumberChild n ∈ outcomePreview o →
          n = 0 ∧ (out_money o = Some 0 ∨ out_favor o = Some 0 ∨ out_rage o = Some 0))
  ∧ (∀ o, out_money o = Some 0 → moneyHint o = NumberChild 0)
  ∧ optionsPreviewingNumber = [("evt_offer", "严词拒绝")].
Proof.
  split; [ | split ].
  - intros o n H. unfold outcomePreview in H.
    apply elem_of_cons in H as [H | H]; [ | apply elem_of_cons in H as [H | H];
      [ | apply elem_of_cons in H as [H | H]; [ | by apply elem_of_nil in H ] ] ];
      symmetry in H; apply guarded_number in H; try (intros m; discriminate);
      destruct H as [-> H]; auto.
  - intros o H. unfold moneyHint. by rewrite H.
  - vm_compute. reflexivity.
Qed.

Lemma menu_buttons_by_type :
  Forall (λ a,
            (btn_className (menuButton a) = "text-red-900 hover:bg-red-100"
             ↔ ∃ c, cost a = Some c
                    ∧ btn_badge (menuButton a)
                      = SpanChild "text-xs bg-red-200 px-1 rounded text-red-800"
                          ("-" +:+ pretty c))
            ∧ (btn_className (menuButton a) ≠ "text-red-900 hover:bg-red-100" →
               btn_badge (menuButton a) = NoChild))
    ALL_ACTIONS.
Proof.
  unfold ALL_ACTIONS, RANKS. cbn [map concat app COMMON_VIOLENCE WORK_ACTIONS HR_ACTIONS
                                   JOBS actions].
  each_entry ltac:(first
    [ split; [ split; [ intros _; eexists; split; reflexivity | reflexivity ]
             | intros H; by destruct H ]
    | split; [ split; [ intros H; discriminate H
                      | intros (c & Hc & _); discriminate Hc ]
             | reflexivity ] ]).
Qed.

(** X14: in the context menu of every profession and scene, a button is
    drawn in the violence style exactly when it carries a cost badge, whose
    text is a minus sign and the action's cost; every other button has no
    badge at all (the [&&] guard never lets a bare number through). *)
Theorem cost_badge_iff_violence_style (job : Profession) (scene : SceneType) :
  Forall (λ a,
            (btn_className (menuButton a) = "text-red-900 hover:bg-red-100"
             ↔ ∃ c, cost a = Some c
                    ∧ btn_badge (menuButton a)
                      = SpanChild "text-xs bg-red-200 px-1 rounded text-red-800"
                          ("-" +:+ pretty c))
            ∧ (btn_className (menuButton a) ≠ "text-red-900 hover:bg-red-100" →
               btn_badge (menuButton a) = NoChild))
    (GET_SCENE_ACTIONS job scene).
Proof.
  apply Forall_forall. intros a Ha.
  apply scene_actions_in_ALL_ACTIONS in Ha.
  pose proof menu_buttons_by_type as H. rewrite Forall_forall in H.
  exact (H a Ha).
Qed.

Lemma boss_office_actions (job : Profession) :
  GET_SCENE_ACTIONS job BOSS_OFFICE = (actions (JOBS job) ++ COMMON_VIOLENCE)%list.
Proof. reflexivity. Qed.

(** X15: [GET_SCENE_ACTIONS] offers exactly the catalog: every action it
    returns is an action object of [constants.ts], and every action object
    of the catalog is returned for some profession and scene. *)
Theorem scene_actions_cover_catalog (a : GameAction) :
  inCatalog a ↔ ∃ job scene, a ∈ GET_SCENE_ACTIONS job scene.
Proof.
  split.
  - intros [H | [H | [H | [p H]]]].
    + exists INTERN, BOSS_OFFICE. rewrite boss_office_actions.
      apply elem_of_app. by right.
    + by exists INTERN, WORKSTATION.
    + by exists INTERN, HR.
    + exists p, BOSS_OFFICE. rewrite boss_office_actions.
      apply elem_of_app. by left.
  - intros (job & scene & H). apply inCatalog_ALL_ACTIONS.
    by apply (scene_actions_in_ALL_ACTIONS job scene).
Qed.

Lemma inlineGossip_not_listed : inlineGossip ∉ ALL_ACTIONS.
Proof. apply (bool_decide_unpack _). vm_compute. exact I. Qed.

(** X16: a click on the NPC triggers the event exactly when a bubble
    shows and the trigger callback was passed, and then clears the bubble;
    otherwise the bubble stays.  An action is dispatched only at the
    workstation, and it is always the object built in place: a TALK action
    with the id "gossip", value 0 and cooldown 0, which is no entry of the
    catalog although the catalog has an action of that id and type (value
    15, cooldown 2000, bound to the workstation). *)
Theorem npc_click_dispatch (bubble : option string)
    (onTriggerEvent onSelectAction isWorkstation : bool) :
  ((handleNpcClick bubble onTriggerEvent onSelectAction isWorkstation).1 = ClickTriggersEvent
   ↔ truthyString bubble = true ∧ onTriggerEvent = true)
  ∧ ((handleNpcClick bubble onTriggerEvent onSelectAction isWorkstation).1 = ClickTriggersEvent →
     (handleNpcClick bubble onTriggerEvent onSelectAction isWorkstation).2 = None)
  ∧ ((handleNpcClick bubble onTriggerEvent onSelectAction isWorkstation).1 ≠ ClickTriggersEvent →
     (handleNpcClick bubble onTriggerEvent onSelectAction isWorkstation).2 = bubble)
  ∧ (∀ a, (handleNpcClick bubble onTriggerEvent onSelectAction isWorkstation).1 = ClickSelects a →
          isWorkstation = true ∧ onSelectAction = true ∧ a = inlineGossip)
  ∧ ¬ inCatalog inlineGossip
  ∧ ∃ b, inCatalog b ∧ action_id b = action_id inlineGossip
         ∧ action_type b = action_type inlineGossip
         ∧ value b = 15 ∧ value inlineGossip = 0
         ∧ cooldown b = 2000 ∧ cooldown inlineGossip = 0
         ∧ targetScene b = Some WORKSTATION ∧ targetScene inlineGossip = None.
Proof.
  unfold handleNpcClick.
  split; [ | split; [ | split; [ | split; [ | split ] ] ] ].
  - destruct (truthyString bubble), onTriggerEvent, onSelectAction, isWorkstation;
      simpl; split; intros H; try done; by destruct H.
  - destruct (truthyString bubble), onTriggerEvent, onSelectAction, isWorkstation;
      simpl; intros H; done.
  - destruct (truthyString bubble), onTriggerEvent, onSelectAction, isWorkstation;
      simpl; intros H; done.
  - intros a.
    destruct (truthyString bubble), onTriggerEvent, onSelectAction, isWorkstation;
      simpl; intros H; try discriminate H; by injection H as <-.
  - intros H. apply inCatalog_ALL_ACTIONS in H. by apply inlineGossip_not_listed.
  - exists (mkAction "gossip" TALK None 15 2000 (Some WORKSTATION)).
    split; [ | by repeat split ].
    right; left. unfold WORK_ACTIONS.
    repeat first [ apply list_elem_of_here | apply list_elem_of_further ].
Qed.

(* ===================================================================== *)
(** ** Properties of [SoundManager] *)
(* ===================================================================== *)

(** A manager has built no context while [ctx] is null and one otherwise. *)
Lemma soundStep_created (call : SoundCall) (m : SoundManager) :
  contextsCreated m = match ctx m with Some _ => 1%nat | None => 0%nat end →
  contextsCreated (soundStep call m)
  = match ctx (soundStep call m) with Some _ => 1%nat | None => 0%nat end.
Proof.
  destruct m as [[c|] n]; destruct call as [b | b type | b]; simpl; intros ->; reflexivity.
Qed.

Lemma soundStep_keeps_ctx (call : SoundCall) (m : SoundManager) :
  is_Some (ctx m) → is_Some (ctx (soundStep call m)).
Proof.
  destruct m as [[c|] n]; intros [x Hx]; [ | discriminate Hx ].
  destruct call; simpl; eauto.
Qed.

Lemma soundStep_builds_ctx (call : SoundCall) (m : SoundManager) :
  isManagerCall call → is_Some (ctx (soundStep call m)).
Proof.
  destruct m as [[c|] n]; destruct call; simpl; intros H; by eauto.
Qed.

Lemma soundStep_voices (call : SoundCall) (m : SoundManager) :
  voicesOf (soundStep call m)
  = (voicesOf m ++ (voiceOf <$> plays [call]))%list.
Proof.
  destruct m as [[c|] n]; destruct call; unfold voicesOf; simpl;
    by rewrite ?app_nil_r.
Qed.

Lemma soundRun_cons (call : SoundCall) (calls : list SoundCall) (m : SoundManager) :
  soundRun (call :: calls) m = soundRun calls (soundStep call m).
Proof. reflexivity. Qed.

Lemma soundRun_created (calls : list SoundCall) (m : SoundManager) :
  contextsCreated m = match ctx m with Some _ => 1%nat | None => 0%nat end →
  contextsCreated (soundRun calls m)
  = match ctx (soundRun calls m) with Some _ => 1%nat | None => 0%nat end.
Proof.
  revert m. induction calls as [|call calls IH]; intros m H; [ exact H | ].
  rewrite soundRun_cons. by apply IH, soundStep_created.
Qed.

Lemma soundRun_keeps_ctx (calls : list SoundCall) (m : SoundManager) :
  is_Some (ctx m) → is_Some (ctx (soundRun calls m)).
Proof.
  revert m. induction calls as [|call calls IH]; intros m H; [ exact H | ].
  rewrite soundRun_cons. by apply IH, soundStep_keeps_ctx.
Qed.

Lemma soundRun_builds_ctx (calls : list SoundCall) (m : SoundManager) :
  Exists isManagerCall calls → is_Some (ctx (soundRun calls m)).
Proof.
  revert m. induction calls as [|call calls IH]; intros m H.
  - by apply Exists_nil in H.
  - rewrite soundRun_cons. apply Exists_cons in H as [H | H].
    + by apply soundRun_keeps_ctx, soundStep_builds_ctx.
    + by apply IH.
Qed.

Lemma plays_cons (call : SoundCall) (calls : list SoundCall) :
  plays (call :: calls) = (plays [call] ++ plays calls)%list.
Proof. unfold plays. by destruct call. Qed.

Lemma soundRun_voices (calls : list SoundCall) (m : SoundManager) :
  voicesOf (soundRun calls m) = (voicesOf m ++ (voiceOf <$> plays calls))%list.
Proof.
  revert m. induction calls as [|call calls IH]; intros m.
  - simpl. by rewrite app_nil_r.
  - rewrite (plays_cons call calls), fmap_app, soundRun_cons, IH, soundStep_voices.
    symmetry. apply (assoc_L (++)).
Qed.

(** X17: whatever sequence of [init] and [play] calls (and of state
    changes by the browser) a fresh [SoundManager] receives, it constructs
    at most one [AudioContext], exactly one as soon as a call was made; and
    the voices scheduled on it are those of the [play] calls, in order. *)
Theorem one_audio_context (calls : list SoundCall) :
  (contextsCreated (soundRun calls freshManager) ≤ 1)%nat
  ∧ (Exists isManagerCall calls →
     is_Some (ctx (soundRun calls freshManager))
     ∧ contextsCreated (soundRun calls freshManager) = 1%nat)
  ∧ voicesOf (soundRun calls freshManager) = voiceOf <$> plays calls.
Proof.
  pose proof (soundRun_created calls freshManager eq_refl) as Hc.
  split; [ | split ].
  - rewrite Hc. destruct (ctx (soundRun calls freshManager)); lia.
  - intros H. apply (soundRun_builds_ctx calls freshManager) in H.
    split; [ exact H | ]. rewrite Hc. destruct H as [c Hctx]. by rewrite Hctx.
  - by rewrite soundRun_voices.
Qed.

(** X18: every sound that [play] schedules is well formed for the Web
    Audio API and ends silently: an exponential ramp always runs between
    two positive values; the commands of each parameter are in time order;
    the oscillator starts at once and stops exactly when the gain envelope
    ends, at a level of at most 0.001; the gain never starts above 0.1. *)
Theorem voices_well_formed (type : SoundType) :
  expRampsPositive None (frequencyCmds (voiceOf type)) = true
  ∧ expRampsPositive None (gainCmds (voiceOf type)) = true
  ∧ timesAscend 0 (frequencyCmds (voiceOf type)) = true
  ∧ timesAscend 0 (gainCmds (voiceOf type)) = true
  ∧ startAt (voiceOf type) = 0%float
  ∧ (paramTime <$> last (gainCmds (voiceOf type))) = Some (stopAt (voiceOf type))
  ∧ Forall (λ c, PrimFloat.leb (paramTime c) (stopAt (voiceOf type)) = true)
      (frequencyCmds (voiceOf type))
  ∧ (∃ c, last (gainCmds (voiceOf type)) = Some c
          ∧ PrimFloat.leb (paramValue c) 0.001 = true)
  ∧ Forall (λ c, PrimFloat.leb (paramValue c) 0.1 = true) (gainCmds (voiceOf type)).
Proof.
  destruct type; repeat apply conj; try (vm_compute; reflexivity);
    try (eexists; split; [ reflexivity | vm_compute; reflexivity ]);
    each_entry ltac:(vm_compute; reflexivity).
Qed.
